(** * go-airgap: chunk reassembly and message framing

    A shallow embedding of the Go package [go_airgap]: the chunk
    splitter / reassembler ([Chunks]) and the envelope codec
    ([AirGap], [Message]), followed by the properties of the
    specification that concern them.

    Conventions of the embedding.
    - Go integers are [Z]; a conversion to a fixed-width unsigned type is
      written as its wrap-around ([uint16], [uint32], [byte_of_Z]).
      [int] is taken to be 64 bits wide; no [int] computation of the
      package leaves that range.
    - A [[]byte] is a [list byte].  Where the code indexes or re-slices a
      slice it did not allocate itself, the slice is a [slice]: its
      elements together with the bytes of the backing array that lie
      between its length and its capacity, because Go bounds an index by
      the length but a slice expression [s[lo:hi]] by the capacity.
    - A run-time panic is a result of its own: [None] for the helpers in
      the option monad, [Panic] / [Panicked] for the entry points.
    - The mutex of [Chunks] is not modelled: every call is taken to run
      alone.
    - [compress/gzip] and [encoding/base64] are interfaces ([Gzip],
      [Base64]); the encryption capability is the record
      [EncryptorDecryptor]. *)

From Stdlib Require Import ZArith String Lia.
From Stdlib Require Import Strings.Byte Strings.Ascii.
From stdpp Require Import base option list numbers strings.

Local Open Scope Z_scope.

(** ** Integers, bytes and slices *)

Definition uint16 (z : Z) : Z := z mod 2 ^ 16.

Definition uint32 (z : Z) : Z := z mod 2 ^ 32.

(** [uint16(b)], [uint32(b)] or [int(b)] of a byte [b]. *)
Definition byte_to_Z (b : byte) : Z := Z.of_N (Byte.to_N b).

(** [byte(z)]: the low eight bits. *)
Definition byte_of_Z (z : Z) : byte :=
  default x00 (Byte.of_N (Z.to_N (z mod 2 ^ 8))).

(** Equality of bytes is decided by [Byte.eqb]. *)
#[global] Instance byte_eq_dec : EqDecision byte :=
  λ x y,
    match Byte.eqb x y as b return Byte.eqb x y = b → Decision (x = y) with
    | true => λ H, left (Byte.byte_dec_bl x y H)
    | false => λ H, right (Byte.eqb_false H)
    end eq_refl.

(** [make([]byte, n)]. *)
Definition make (n : Z) : list byte := replicate (Z.to_nat n) x00.

(** [b[i] = v] on a slice of full capacity; [None] is the index panic. *)
Definition store (b : list byte) (i : nat) (v : byte) : option (list byte) :=
  if decide (i < length b)%nat then Some (<[i:=v]> b) else None.

(** [copy(dst, src)]: the contents of [dst] afterwards. *)
Definition copy (dst src : list byte) : list byte :=
  take (length dst) src ++ drop (length src) dst.

(** A byte slice handed in from outside: [elems] are the [len] visible
    bytes, [spare] the rest of the backing array up to [cap]. *)
Record slice : Type := Slice { elems : list byte; spare : list byte }.

Definition len (s : slice) : Z := Z.of_nat (length (elems s)).

Definition cap (s : slice) : Z :=
  Z.of_nat (length (elems s) + length (spare s)).

(** [s[i]]; [None] is the index panic. *)
Definition byte_at (s : slice) (i : Z) : option byte :=
  if decide (0 ≤ i) then elems s !! Z.to_nat i else None.

(** [s[lo:hi]]; [None] is the bounds panic.  The upper bound is checked
    against the capacity. *)
Definition reslice (s : slice) (lo hi : Z) : option (list byte) :=
  if decide (0 ≤ lo ∧ lo ≤ hi ∧ hi ≤ cap s)
  then Some (take (Z.to_nat (hi - lo))
                  (drop (Z.to_nat lo) (elems s ++ spare s)))
  else None.

(** Result of a call that returns [(value, error)] or panics. *)
Inductive outcome (A : Type) : Type :=
  | Ok (a : A)
  | Err (msg : string)
  | Panic.

Arguments Ok {A} a.
Arguments Err {A} msg.
Arguments Panic {A}.

(** ** The libraries the package calls *)

(** [encoding/base64], [StdEncoding].  [DecodeString] returns the slice
    [dbuf[:n]] of a buffer of [DecodedLen] bytes, hence a [slice];
    [None] is a non-nil error. *)
Class Base64 : Type := {
  EncodeToString : list byte → string;
  DecodeString : string → option slice
}.

(** What [gzip.NewReader] followed by [io.ReadAll] gives. *)
Inductive gzip_read : Type :=
  | GzHeaderErr (e : string)
  | GzReadErr (e : string)
  | GzBytes (bs : list byte).

(** [compress/gzip].  [gzip_write] is the stream left in the buffer by a
    writer of level [BestCompression] after [Write] and [Close]; writing
    into a [bytes.Buffer] returns no error. *)
Class Gzip : Type := {
  gzip_write : list byte → list byte;
  gzip_readall : list byte → gzip_read
}.

(** ** chunks.go *)

Definition chunkHeaderOffset : Z := 6.

Definition minChunkSize : Z := chunkHeaderOffset.

Definition defaultChunkSize : Z := 192.

Definition maxPayloadSize : Z := (2 ≪ 15 - 1) * (2 ≪ 15 - 1).

(** [data] is the slot table; a slot is [None] while it is [nil]. *)
Record Chunks : Type := {
  count : Z;
  size : Z;
  data : list (option (list byte))
}.

(** [NewChunks()], also [&Chunks{}]. *)
Definition NewChunks : Chunks := {| count := 0; size := 0; data := [] |}.

Section chunks.
Context `{!Gzip, !Base64}.

Definition compress (src : list byte) : outcome (list byte) :=
  Ok (gzip_write src).

Definition uncompress (src : list byte) : outcome (list byte) :=
  match gzip_readall src with
  | GzHeaderErr e => Err ("cannot uncompress data: " +:+ e)
  | GzReadErr e => Err ("cannot read uncompressed data: " +:+ e)
  | GzBytes bs => Ok bs
  end.

(** The [for] loop of [SetData].  [chunkSize] is the value after
    [chunkSize -= chunkHeaderOffset].  [None]: the loop is still
    running when the fuel is used up. *)
Fixpoint split_loop (fuel : nat) (compressedData : list byte)
    (chunkSize iter : Z) (data : list (option (list byte)))
    : option (list (option (list byte))) :=
  match fuel with
  | O => None
  | S fuel =>
      if decide (iter < Z.of_nat (length compressedData)) then
        let rest := drop (Z.to_nat iter) compressedData in
        let payloadSize := Z.of_nat (length rest) in
        let chunk :=
          if decide (payloadSize >= chunkSize)
          then copy (make chunkSize) (take (Z.to_nat chunkSize) rest)
          else copy (make payloadSize) rest in
        split_loop fuel compressedData chunkSize (iter + chunkSize)
                   (data ++ [Some chunk])
      else Some data
  end.

(** [SetData] of [Chunks]; the receiver is not read.  [None]: out of
    fuel. *)
Definition SetData (fuel : nat) (src : list byte) (chunkSize : Z)
    : option (outcome Chunks) :=
  if decide (chunkSize < minChunkSize) then
    Some (Err "min chunk size 32")
  else if decide (chunkSize > 1 ≪ 16 - chunkHeaderOffset) then
    Some (Err "max chunk size 65531")
  else
    let chunkSize := chunkSize - chunkHeaderOffset in
    match compress src with
    | Err e => Some (Err e)
    | Panic => Some Panic
    | Ok compressedData =>
        data ← split_loop fuel compressedData chunkSize 0 [];
        Some (Ok {| count := uint16 (Z.of_nat (length data));
                    size := uint16 chunkSize;
                    data := data |})
    end.

(** [NewChunks(src, chunkSize)] of the revision of chunks.go that
    airgap.go calls: the same statements as [SetData]. *)
Definition NewChunks_src (fuel : nat) (src : list byte) (chunkSize : Z)
    : option (outcome Chunks) :=
  if decide (chunkSize < minChunkSize) then
    Some (Err "min chunk size 32")
  else if decide (chunkSize > 1 ≪ 16 - chunkHeaderOffset) then
    Some (Err "max chunk size 65531")
  else
    let chunkSize := chunkSize - chunkHeaderOffset in
    match compress src with
    | Err e => Some (Err e)
    | Panic => Some Panic
    | Ok compressedData =>
        data ← split_loop fuel compressedData chunkSize 0 [];
        Some (Ok {| count := uint16 (Z.of_nat (length data));
                    size := uint16 chunkSize;
                    data := data |})
    end.

Definition getChunkWithHeader (ch : Chunks) (index : Z)
    : option (list byte) :=
  slot ← data ch !! Z.to_nat index;
  let payload := default [] slot in
  let size_ := Z.of_nat (length payload) in
  let chunk := make (uint16 (size ch + chunkHeaderOffset)) in
  chunk ← store chunk 0 (byte_of_Z index);
  chunk ← store chunk 1 (byte_of_Z (index ≫ 8));
  chunk ← store chunk 2 (byte_of_Z (count ch));
  chunk ← store chunk 3 (byte_of_Z (count ch ≫ 8));
  chunk ← store chunk 4 (byte_of_Z size_);
  chunk ← store chunk 5 (byte_of_Z (size_ ≫ 8));
  Some (take 6 chunk ++ copy (drop 6 chunk) payload).

Definition Data (ch : Chunks) : option (list byte) :=
  slots ← mapM (λ index, data ch !! Z.to_nat index) (seqZ 0 (count ch));
  let result := concat (default [] <$> slots) in
  Some (match uncompress result with Ok result => result | _ => [] end).

Definition SerializeB64 (ch : Chunks) : option (list string) :=
  mapM (λ i, EncodeToString <$> getChunkWithHeader ch i)
       (seqZ 0 (count ch)).

Definition Count (ch : Chunks) : Z := count ch.

(** Result of [ReadB64Chunk]: what it returns together with the
    receiver afterwards, or the receiver as the panic leaves it. *)
Inductive read_outcome : Type :=
  | Returned (ch : Chunks) (wasAdded : bool) (err : option string)
  | Panicked (ch : Chunks).

(** [uint16(lo) | uint16(hi)<<8]. *)
Definition le16 (lo hi : byte) : Z :=
  Z.lor (byte_to_Z lo) (byte_to_Z hi ≪ 8).

Definition ReadB64Chunk (ch : Chunks) (frame : string) : read_outcome :=
  match DecodeString frame with
  | None => Returned ch false (Some "incorrect go-airgap message"%string)
  | Some chunk =>
      let first :=
        if decide (count ch = 0) then
          c2 ← byte_at chunk 2;
          c3 ← byte_at chunk 3;
          let n := le16 c2 c3 in
          Some {| count := n; size := size ch;
                  data := replicate (Z.to_nat n) None |}
        else Some ch in
      match first with
      | None => Panicked ch
      | Some ch =>
          match byte_at chunk 0, byte_at chunk 1,
                byte_at chunk 4, byte_at chunk 5 with
          | Some c0, Some c1, Some c4, Some c5 =>
              let index := le16 c0 c1 in
              let size_ := le16 c4 c5 in
              match data ch !! Z.to_nat index with
              | None => Panicked ch
              | Some (Some _) => Returned ch false None
              | Some None =>
                  let slot := make size_ in
                  let ch :=
                    {| count := count ch; size := size ch;
                       data := <[Z.to_nat index := Some slot]> (data ch) |} in
                  match reslice chunk chunkHeaderOffset
                                (uint16 (chunkHeaderOffset + size_)) with
                  | None => Panicked ch
                  | Some src =>
                      Returned
                        {| count := count ch; size := size ch;
                           data := <[Z.to_nat index := Some (copy slot src)]>
                                     (data ch) |}
                        true None
                  end
              end
          | _, _, _, _ => Panicked ch
          end
      end
  end.

Definition IsReady (ch : Chunks) : bool :=
  bool_decide (Z.of_nat (length (data ch)) = count ch).

End chunks.

(** ** airgap.go *)

Definition VersionDefault : Z := 1.

Definition compressedPubKeySize : Z := 33.

Definition airGapMessagesOffset : Z := 1 + compressedPubKeySize.

Definition operationPayloadOffset : Z := 6.

(** The two interfaces and their union.  [Decrypt] is applied to the
    visible bytes of its argument; what it returns is indexed and
    re-sliced by [Unmarshal], hence a [slice]. *)
Record Encryptor : Type := {
  Encrypt : list byte → outcome (list byte)
}.

Record Decryptor : Type := {
  Decrypt : list byte → outcome slice
}.

Record EncryptorDecryptor : Type := {
  encryptor :> Encryptor;
  decryptor :> Decryptor
}.

(** [OpData] is the field [Data] of the Go struct. *)
Record OpPayload : Type := {
  OpCode : Z;
  Size : Z;
  OpData : list byte
}.

(** [instanceId] is [None] when it is [nil]; [ed] is [None] when the
    interface value is [nil]. *)
Record AirGap : Type := {
  version : Z;
  instanceId : option (list byte);
  chunkSize : Z;
  ed : option EncryptorDecryptor
}.

(** [m_chunkSize] and [m_e] are the fields [chunkSize] and [e]. *)
Record Message : Type := {
  Version : Z;
  InstanceId : option (list byte);
  Payload : list OpPayload;
  m_chunkSize : Z;
  m_e : option Encryptor
}.

(** [None] is the panic of the constructor. *)
Definition NewAirGap (version : Z) (instanceId : option (list byte))
    : option AirGap :=
  match instanceId with
  | None => None
  | Some id =>
      if decide (Z.of_nat (length id) ≠ compressedPubKeySize) then None
      else Some {| version := version; instanceId := Some id;
                   chunkSize := defaultChunkSize; ed := None |}
  end.

Definition SetEncryptorDecryptor (a : AirGap) (ed : option EncryptorDecryptor)
    : AirGap :=
  {| version := version a; instanceId := instanceId a;
     chunkSize := chunkSize a; ed := ed |}.

Definition SetVersion (a : AirGap) (version : Z) : AirGap :=
  {| version := version; instanceId := instanceId a;
     chunkSize := chunkSize a; ed := ed a |}.

Definition SetChunkSize (a : AirGap) (chunkSize : Z) : AirGap :=
  {| version := version a; instanceId := instanceId a;
     chunkSize := chunkSize; ed := ed a |}.

Definition ChunkSize (a : AirGap) : Z := chunkSize a.

(** [None] is the panic on a [nil] instance id. *)
Definition CreateMessage (a : AirGap) : option Message :=
  match instanceId a with
  | None => None
  | Some _ =>
      Some {| Version := version a; InstanceId := instanceId a;
              Payload := []; m_chunkSize := chunkSize a;
              m_e := encryptor <$> ed a |}
  end.

Definition AddOperation (m : Message) (opCode : Z) (data : list byte)
    : Message :=
  {| Version := Version m; InstanceId := InstanceId m;
     Payload := Payload m ++ [{| OpCode := opCode;
                                 Size := uint32 (Z.of_nat (length data));
                                 OpData := data |}];
     m_chunkSize := m_chunkSize m; m_e := m_e m |}.

(** The body of the [for] loop of [Marshal]: the serialized record of
    one operation; [None] is a panic. *)
Definition marshal_payload (op : OpPayload) : option (list byte) :=
  let payload := make (uint32 (operationPayloadOffset + Size op)) in
  payload ← store payload 0 (byte_of_Z (OpCode op ≫ 8));
  payload ← store payload 1 (byte_of_Z (OpCode op));
  payload ← store payload 2 (byte_of_Z (Size op ≫ 24));
  payload ← store payload 3 (byte_of_Z (Size op ≫ 16));
  payload ← store payload 4 (byte_of_Z (Size op ≫ 8));
  payload ← store payload 5 (byte_of_Z (Size op));
  Some (take 6 payload ++ copy (drop 6 payload) (OpData op)).

Definition Marshal (m : Message) : outcome (list byte) :=
  let result := [] ++ [byte_of_Z (Version m)] in
  let result := result ++ default [] (InstanceId m) in
  match mapM marshal_payload (Payload m) with
  | None => Panic
  | Some payloads =>
      let result := result ++ concat payloads in
      match m_e m with
      | Some e => Encrypt e result
      | None => Ok result
      end
  end.

Section airgap.
Context `{!Gzip, !Base64}.

(** [None]: [NewChunks] ran out of fuel. *)
Definition MarshalB64Chunks (fuel : nat) (m : Message)
    : option (outcome (list string)) :=
  match Marshal m with
  | Err e => Some (Err e)
  | Panic => Some Panic
  | Ok serializedMessages =>
      r ← NewChunks_src fuel serializedMessages (m_chunkSize m);
      match r with
      | Err e => Some (Err e)
      | Panic => Some Panic
      | Ok result =>
          Some (match SerializeB64 result with
                | Some frames => Ok frames
                | None => Panic
                end)
      end
  end.

End airgap.

(** The two header expressions at the top of the loop of [Unmarshal]:
    [opCode] and [size]. *)
Definition read_op_header (data : slice) (iter : Z) : option (Z * Z) :=
  d1 ← byte_at data (iter + 1);
  d0 ← byte_at data iter;
  d5 ← byte_at data (iter + 5);
  d4 ← byte_at data (iter + 4);
  d3 ← byte_at data (iter + 3);
  d2 ← byte_at data (iter + 2);
  Some (Z.lor (byte_to_Z d1) (byte_to_Z d0 ≪ 8),
        Z.lor (Z.lor (Z.lor (byte_to_Z d5) (byte_to_Z d4 ≪ 8))
                     (byte_to_Z d3 ≪ 16))
              (byte_to_Z d2 ≪ 24)).

(** The [for] loop of [Unmarshal], [iter += bytesReaded] included.
    [None]: out of fuel. *)
Fixpoint unmarshal_loop (fuel : nat) (data : slice) (iter : Z)
    (message : Message) : option (outcome Message) :=
  match fuel with
  | O => None
  | S fuel =>
      if decide (iter < len data) then
        match read_op_header data iter with
        | None => Some Panic
        | Some (opCode, size_) =>
            let bytesReaded := operationPayloadOffset + size_ in
            match reslice data (iter + 6) (iter + bytesReaded) with
            | None => Some Panic
            | Some d =>
                unmarshal_loop fuel data (iter + bytesReaded)
                               (AddOperation message opCode d)
            end
        end
      else Some (Ok message)
  end.

(** [bytes.Equal]. *)
Definition bytes_Equal (a b : list byte) : bool := bool_decide (a = b).

(** The first statement of [Unmarshal]: [data] after the optional
    [Decrypt]. *)
Definition decrypted (a : AirGap) (data : slice) : outcome slice :=
  match ed a with
  | Some ed => Decrypt ed (elems data)
  | None => Ok data
  end.

(** [Unmarshal].  The loop is run with as much fuel as the input has
    bytes, plus one; [Unmarshal_total] shows that this is always
    enough. *)
Definition Unmarshal (a : AirGap) (data : slice)
    : option (outcome Message) :=
  match decrypted a data with
  | Err e => Some (Err e)
  | Panic => Some Panic
  | Ok data =>
      match byte_at data 0 with
      | None => Some Panic
      | Some version_ =>
          let version_ := byte_to_Z version_ in
          match reslice data 1 airGapMessagesOffset with
          | None => Some Panic
          | Some instanceId_ =>
              if decide (version_ ≠ version a ∧ version_ < version a) then
                Some (Err "go-airgap message version less than supported")
              else if decide (version_ ≠ version a ∧ version_ > version a) then
                Some (Err "go-airgap message version greater than supported")
              else if negb (bytes_Equal (default [] (instanceId a))
                                        instanceId_) then
                Some (Err "go-airgap message has incorrect instance")
              else
                match CreateMessage a with
                | None => Some Panic
                | Some message =>
                    unmarshal_loop (S (length (elems data))) data
                                   airGapMessagesOffset message
                end
          end
      end
  end.

(** ** Executable instances of the libraries

    The properties below are proved for every implementation of the
    interfaces that satisfies the round-trip laws.  The instances of this
    section make the model run on concrete frames: the standard base64
    alphabet with padding, a gzip stand-in that stores its input behind
    the two magic bytes of the format, and a one-byte XOR mask as the
    encryption capability. *)

Definition b64_char (n : Z) : ascii :=
  ascii_of_N (Z.to_N (if decide (n < 26) then n + 65
                      else if decide (n < 52) then n + 71
                      else if decide (n < 62) then n - 4
                      else if decide (n = 62) then 43 else 47)).

Definition b64_sextet (c : ascii) : option Z :=
  let n := Z.of_N (N_of_ascii c) in
  if decide (65 ≤ n ∧ n ≤ 90) then Some (n - 65)
  else if decide (97 ≤ n ∧ n ≤ 122) then Some (n - 71)
  else if decide (48 ≤ n ∧ n ≤ 57) then Some (n + 4)
  else if decide (n = 43) then Some 62
  else if decide (n = 47) then Some 63
  else None.

Definition b64_pad : ascii := ascii_of_N 61.

Fixpoint b64_encode (src : list byte) : list ascii :=
  match src with
  | [] => []
  | [a] =>
      let a := byte_to_Z a in
      [b64_char (a / 4); b64_char (a mod 4 * 16); b64_pad; b64_pad]
  | [a; b] =>
      let a := byte_to_Z a in
      let b := byte_to_Z b in
      [b64_char (a / 4); b64_char (a mod 4 * 16 + b / 16);
       b64_char (b mod 16 * 4); b64_pad]
  | a :: b :: c :: src =>
      let a := byte_to_Z a in
      let b := byte_to_Z b in
      let c := byte_to_Z c in
      b64_char (a / 4) :: b64_char (a mod 4 * 16 + b / 16)
        :: b64_char (b mod 16 * 4 + c / 64) :: b64_char (c mod 64)
        :: b64_encode src
  end.

Fixpoint b64_decode (src : list ascii) : option (list byte) :=
  match src with
  | [] => Some []
  | c0 :: c1 :: c2 :: c3 :: src =>
      s0 ← b64_sextet c0;
      s1 ← b64_sextet c1;
      let b0 := byte_of_Z (s0 * 4 + s1 / 16) in
      if decide (c2 = b64_pad) then
        if decide (c3 = b64_pad ∧ src = []) then Some [b0] else None
      else
        s2 ← b64_sextet c2;
        let b1 := byte_of_Z (s1 mod 16 * 16 + s2 / 4) in
        if decide (c3 = b64_pad) then
          if decide (src = []) then Some [b0; b1] else None
        else
          s3 ← b64_sextet c3;
          let b2 := byte_of_Z (s2 mod 4 * 64 + s3) in
          rest ← b64_decode src;
          Some (b0 :: b1 :: b2 :: rest)
  | _ => None
  end.

(** Carriage returns and line feeds are skipped by the decoder. *)
Definition b64_newline (c : ascii) : Prop :=
  c = ascii_of_N 10 ∨ c = ascii_of_N 13.

#[global] Instance b64_newline_dec c : Decision (b64_newline c).
Proof. unfold b64_newline. apply _. Defined.

(** The decoded bytes are the front of a zeroed buffer of
    [DecodedLen(len(s))] bytes. *)
Definition StdEncoding : Base64 := {|
  EncodeToString src := string_of_list_ascii (b64_encode src);
  DecodeString s :=
    let cs := list_ascii_of_string s in
    out ← b64_decode (filter (λ c, ¬ b64_newline c) cs);
    Some (Slice out (replicate (length cs / 4 * 3 - length out)%nat x00))
|}.

Definition gzip_magic : list byte := [x1f; x8b].

Definition StoredGzip : Gzip := {|
  gzip_write src := gzip_magic ++ src;
  gzip_readall src :=
    if decide (src = []) then GzHeaderErr "EOF"
    else if decide (take 2 src = gzip_magic) then GzBytes (drop 2 src)
    else GzHeaderErr "gzip: invalid header"
|}.

Definition xor_byte (k b : byte) : byte :=
  byte_of_Z (Z.lxor (byte_to_Z k) (byte_to_Z b)).

Definition XorCipher (k : byte) : EncryptorDecryptor := {|
  encryptor := {| Encrypt src := Ok (xor_byte k <$> src) |};
  decryptor := {| Decrypt src := Ok (Slice (xor_byte k <$> src) []) |}
|}.

(** ** Laws of the libraries and vocabulary of the statements *)

(** Decoding an encoded frame gives the frame back, in a buffer with
    some spare capacity. *)
Class Base64Laws `{!Base64} : Prop :=
  decode_encode :
    ∀ src : list byte,
      ∃ sp : list byte, DecodeString (EncodeToString src) = Some (Slice src sp).

(** Reading back a written stream gives the input. *)
Class GzipLaws `{!Gzip} : Prop :=
  readall_write : ∀ src : list byte, gzip_readall (gzip_write src) = GzBytes src.

(** [Decrypt] inverts [Encrypt]. *)
Definition decrypt_inverts_encrypt (ed : EncryptorDecryptor) : Prop :=
  ∀ src c : list byte,
    Encrypt ed src = Ok c → ∃ sp : list byte, Decrypt ed c = Ok (Slice src sp).

(** The receiving loop of the tests: every frame is given to
    [ReadB64Chunk], and a returned error stops the run; [None] also
    stands for a panic. *)
Fixpoint read_frames `{!Base64} (ch : Chunks) (frames : list string)
    : option Chunks :=
  match frames with
  | [] => Some ch
  | frame :: frames =>
      match ReadB64Chunk ch frame with
      | Returned ch _ None => read_frames ch frames
      | _ => None
      end
  end.

(** The bytes of the frame of chunk [i] of [n], payload [c], in a buffer
    of payload capacity [p]: header, payload, zero padding. *)
Definition chunk_frame (n p : Z) (i : nat) (c : list byte) : list byte :=
  [byte_of_Z (Z.of_nat i); byte_of_Z (Z.of_nat i ≫ 8);
   byte_of_Z n; byte_of_Z (n ≫ 8);
   byte_of_Z (Z.of_nat (length c)); byte_of_Z (Z.of_nat (length c) ≫ 8)]
  ++ c ++ replicate (Z.to_nat p - length c) x00.

(** The slot table of a receiver of the chunks [cs] that has been given
    the chunks whose indices are in [got]. *)
Definition received (cs : list (list byte)) (got : list nat)
    : list (option (list byte)) :=
  imap (λ i c, if bool_decide (i ∈ got) then Some c else None) cs.

(** The states a receiving buffer goes through: the empty buffer, what
    [ReadB64Chunk] leaves when it returns, and what it leaves behind
    when it panics and the caller recovers. *)
Inductive reachable `{!Base64} : Chunks → Prop :=
  | reachable_new : reachable NewChunks
  | reachable_read (ch ch' : Chunks) (frame : string) (wasAdded : bool)
      (err : option string) :
      reachable ch →
      ReadB64Chunk ch frame = Returned ch' wasAdded err →
      reachable ch'
  | reachable_recovered (ch ch' : Chunks) (frame : string) :
      reachable ch →
      ReadB64Chunk ch frame = Panicked ch' →
      reachable ch'.

(** The six header bytes of an operation record: [opCode] and the
    declared size, both big-endian. *)
Definition op_header (opCode size_ : Z) : list byte :=
  [byte_of_Z (opCode ≫ 8); byte_of_Z opCode;
   byte_of_Z (size_ ≫ 24); byte_of_Z (size_ ≫ 16);
   byte_of_Z (size_ ≫ 8); byte_of_Z size_].

(** The record of an operation: header, then the data. *)
Definition op_record (op : Z * list byte) : list byte :=
  op_header op.1 (Z.of_nat (length op.2)) ++ op.2.

(** The envelope of a list of operations, before encryption. *)
Definition envelope (a : AirGap) (ops : list (Z * list byte)) : list byte :=
  byte_of_Z (version a) :: default [] (instanceId a)
  ++ concat (op_record <$> ops).

(** An operation as the types of [AddOperation] and the size field of
    the record allow it. *)
Definition op_fits (op : Z * list byte) : Prop :=
  0 ≤ op.1 < 2 ^ 16 ∧ Z.of_nat (length op.2) ≤ 2 ^ 32 - 7.

(** [AddOperation] for each element of a list, in order. *)
Definition add_operations (m : Message) (ops : list (Z * list byte))
    : Message :=
  foldl (λ m op, AddOperation m op.1 op.2) m ops.

(** The [OpPayload] that [AddOperation] appends. *)
Definition payload_of (op : Z * list byte) : OpPayload :=
  {| OpCode := op.1; Size := Z.of_nat (length op.2); OpData := op.2 |}.

(** The receiver after a call, however the call ended. *)
Definition state_after `{!Base64} (r : read_outcome) : Chunks :=
  match r with
  | Returned ch _ _ => ch
  | Panicked ch => ch
  end.

(** The frame has its six header bytes, the count of the buffer is
    fixed, and the slot the frame addresses holds a payload. *)
Definition slot_filled `{!Base64} (ch : Chunks) (frame : string) : Prop :=
  ∃ (chunk : slice) (c0 c1 c4 c5 : byte) (payload : list byte),
    DecodeString frame = Some chunk
    ∧ count ch ≠ 0
    ∧ byte_at chunk 0 = Some c0
    ∧ byte_at chunk 1 = Some c1
    ∧ byte_at chunk 4 = Some c4
    ∧ byte_at chunk 5 = Some c5
    ∧ data ch !! Z.to_nat (le16 c0 c1) = Some (Some payload).

(** A paired device for the examples: protocol version 1 and an
    instance id of 33 bytes [02]. *)
Definition example_id : list byte := replicate 33 x02.

Definition example_airgap : AirGap :=
  {| version := VersionDefault; instanceId := Some example_id;
     chunkSize := defaultChunkSize; ed := None |}.

(** The three operations of the envelope example of the
    specification. *)
Definition example_ops : list (Z * list byte) :=
  [(1, [x61]); (1000, [x62; x62]); (65535, [x63; x63; x63])].

(** * Properties *)

(** ** Bytes and little- and big-endian fields *)

Lemma byte_to_Z_range (b : byte) : 0 ≤ byte_to_Z b < 256.
Proof.
  unfold byte_to_Z. pose proof (Byte.to_N_bounded b). lia.
Qed.

Lemma byte_of_to_Z (b : byte) : byte_of_Z (byte_to_Z b) = b.
Proof.
  pose proof (byte_to_Z_range b) as Hb. unfold byte_of_Z.
  rewrite Z.mod_small by (change (2 ^ 8) with 256; lia).
  unfold byte_to_Z. rewrite N2Z.id, Byte.of_to_N. reflexivity.
Qed.

Lemma byte_to_of_Z (z : Z) : byte_to_Z (byte_of_Z z) = z mod 256.
Proof.
  unfold byte_of_Z. change (2 ^ 8) with 256.
  pose proof (Z.mod_pos_bound z 256 ltac:(lia)) as Hz.
  destruct (Byte.of_N (Z.to_N (z mod 256))) as [b|] eqn:Hb.
  - apply Byte.to_of_N in Hb. unfold byte_to_Z. simpl. rewrite Hb. lia.
  - apply Byte.of_N_None_iff in Hb. lia.
Qed.

Lemma byte_of_Z_inj (x y : Z) :
  0 ≤ x < 256 → 0 ≤ y < 256 → byte_of_Z x = byte_of_Z y → x = y.
Proof.
  intros Hx Hy Heq. apply (f_equal byte_to_Z) in Heq.
  rewrite !byte_to_of_Z, !Z.mod_small in Heq; lia.
Qed.

Lemma lor_shiftl_add (a b k : Z) :
  0 ≤ k → 0 ≤ a < 2 ^ k → Z.lor a (b ≪ k) = a + b * 2 ^ k.
Proof.
  intros Hk Ha. rewrite Z.shiftl_mul_pow2 by lia. symmetry.
  apply Z.add_nocarry_lor, Z.bits_inj'. intros n Hn.
  rewrite Z.land_spec, Z.bits_0.
  destruct (Z.lt_ge_cases n k) as [Hlt|Hge].
  - rewrite Z.mul_pow2_bits_low by lia. apply andb_false_r.
  - rewrite <- (Z.mod_small a (2 ^ k)) by lia.
    rewrite Z.mod_pow2_bits_high by lia. reflexivity.
Qed.

Lemma le16_add (lo hi : byte) : le16 lo hi = byte_to_Z lo + byte_to_Z hi * 256.
Proof.
  unfold le16. pose proof (byte_to_Z_range lo).
  rewrite lor_shiftl_add by (change (2 ^ 8) with 256; lia). reflexivity.
Qed.

Lemma le16_range (lo hi : byte) : 0 ≤ le16 lo hi < 65536.
Proof.
  rewrite le16_add.
  pose proof (byte_to_Z_range lo). pose proof (byte_to_Z_range hi). lia.
Qed.

Lemma le16_bytes (n : Z) :
  0 ≤ n < 65536 → le16 (byte_of_Z n) (byte_of_Z (n ≫ 8)) = n.
Proof.
  intros Hn. rewrite le16_add, !byte_to_of_Z, Z.shiftr_div_pow2 by lia.
  change (2 ^ 8) with 256. Z.div_mod_to_equations. lia.
Qed.

(** ** [make], [store] and [copy] *)

Lemma length_make (n : Z) : length (make n) = Z.to_nat n.
Proof. apply length_replicate. Qed.

Lemma length_copy (dst src : list byte) : length (copy dst src) = length dst.
Proof.
  unfold copy. rewrite length_app, length_take, length_drop. lia.
Qed.

Lemma copy_make_exact (src : list byte) (n : Z) :
  n = Z.of_nat (length src) → copy (make n) src = src.
Proof.
  intros ->. unfold copy. rewrite length_make, Nat2Z.id.
  rewrite firstn_all, drop_ge by (rewrite length_make; lia).
  apply app_nil_r.
Qed.

Lemma copy_make_pad (src : list byte) (n : nat) :
  (length src ≤ n)%nat →
  copy (replicate n x00) src = src ++ replicate (n - length src) x00.
Proof.
  intros Hle. unfold copy. rewrite length_replicate.
  rewrite take_ge by lia. f_equal.
  rewrite drop_replicate. reflexivity.
Qed.

Lemma store_Some (b : list byte) (i : nat) (v : byte) :
  (i < length b)%nat → store b i v = Some (<[i:=v]> b).
Proof. intros Hi. unfold store. rewrite decide_True; done. Qed.

Lemma store_None (b : list byte) (i : nat) (v : byte) :
  (length b ≤ i)%nat → store b i v = None.
Proof. intros Hi. unfold store. rewrite decide_False; [done | lia]. Qed.

(** ** The splitting loop *)

Section split.
Context `{!Gzip}.

(** Number of windows of [p] bytes needed for [total] bytes. *)
Lemma windows_step (r p : Z) :
  0 < r → 0 < p →
  (Z.max 0 r + p - 1) / p = 1 + (Z.max 0 (r - p) + p - 1) / p.
Proof.
  intros Hr Hp. destruct (Z.le_gt_cases p r) as [Hle|Hgt].
  - rewrite !Z.max_r by lia.
    replace (r + p - 1) with (r - p + p - 1 + 1 * p) by lia.
    rewrite Z.div_add by lia. lia.
  - rewrite Z.max_r, Z.max_l by lia.
    rewrite (Z.div_small (0 + p - 1)) by lia.
    symmetry. apply Z.div_unique with (r := r - 1); lia.
Qed.

(** With a positive payload capacity the loop ends; it cuts the rest of
    the stream into non-empty windows of at most [p] bytes. *)
Lemma split_loop_spec (cd : list byte) (p : Z) :
  0 < p →
  ∀ (fuel : nat) (iter : Z) (acc : list (option (list byte))),
    0 ≤ iter →
    Z.max 0 (Z.of_nat (length cd) - iter) < Z.of_nat fuel →
    ∃ cs : list (list byte),
      split_loop fuel cd p iter acc = Some (acc ++ (Some <$> cs))
      ∧ concat cs = drop (Z.to_nat iter) cd
      ∧ Forall (λ c, Z.of_nat (length c) ≤ p) cs
      ∧ Z.of_nat (length cs)
        = (Z.max 0 (Z.of_nat (length cd) - iter) + p - 1) / p.
Proof.
  intros Hp. induction fuel as [|fuel IH]; intros iter acc Hiter Hfuel.
  - lia.
  - simpl. destruct (decide (iter < Z.of_nat (length cd))) as [Hlt|Hge].
    + set (rest := drop (Z.to_nat iter) cd).
      assert (Hrest : Z.of_nat (length rest) = Z.of_nat (length cd) - iter).
      { unfold rest. rewrite length_drop. lia. }
      set (chunk := if decide (Z.of_nat (length rest) >= p)
                    then copy (make p) (take (Z.to_nat p) rest)
                    else copy (make (Z.of_nat (length rest))) rest).
      assert (Hchunk : chunk = take (Z.to_nat p) rest).
      { unfold chunk. destruct (decide _) as [Hfull|Hshort].
        - apply copy_make_exact. rewrite length_take. lia.
        - rewrite copy_make_exact by reflexivity.
          rewrite take_ge by lia. reflexivity. }
      destruct (IH (iter + p) (acc ++ [Some chunk])) as (cs & Hrun & Hcat & Hlen & Hn);
        [lia | lia |].
      exists (chunk :: cs). split; [|split; [|split]].
      * rewrite Hrun, <- app_assoc. reflexivity.
      * simpl. rewrite Hcat, Hchunk. unfold rest.
        replace (Z.to_nat (iter + p)) with (Z.to_nat iter + Z.to_nat p)%nat by lia.
        rewrite <- drop_drop. apply take_drop.
      * constructor; [|exact Hlen]. rewrite Hchunk, length_take. lia.
      * rewrite length_cons, Nat2Z.inj_succ, Hn.
        rewrite (windows_step (Z.of_nat (length cd) - iter) p) by lia.
        replace (Z.of_nat (length cd) - (iter + p))
          with (Z.of_nat (length cd) - iter - p) by lia.
        lia.
    + exists []. split; [|split; [|split]].
      * rewrite app_nil_r. reflexivity.
      * rewrite drop_ge by lia. reflexivity.
      * constructor.
      * rewrite Z.max_l by lia. rewrite Z.div_small by lia. reflexivity.
Qed.

(** With payload capacity zero the loop never leaves a non-empty
    stream: whatever the fuel, it is used up. *)
Lemma split_loop_zero (cd : list byte) :
  ∀ (fuel : nat) (iter : Z) (acc : list (option (list byte))),
    iter < Z.of_nat (length cd) → split_loop fuel cd 0 iter acc = None.
Proof.
  induction fuel as [|fuel IH]; intros iter acc Hlt; simpl; [reflexivity|].
  rewrite decide_True by exact Hlt.
  rewrite Z.add_0_r. apply IH, Hlt.
Qed.

Lemma SetData_guard_min (fuel : nat) (src : list byte) (chunkSize : Z) :
  chunkSize < 6 → SetData fuel src chunkSize = Some (Err "min chunk size 32").
Proof.
  intros Hlt. unfold SetData. rewrite decide_True; [reflexivity|exact Hlt].
Qed.

Lemma SetData_guard_max (fuel : nat) (src : list byte) (chunkSize : Z) :
  65530 < chunkSize →
  SetData fuel src chunkSize = Some (Err "max chunk size 65531").
Proof.
  intros Hgt. unfold SetData.
  rewrite decide_False by (unfold minChunkSize, chunkHeaderOffset; lia).
  rewrite decide_True; [reflexivity|].
  change (1 ≪ 16 - chunkHeaderOffset) with 65530. lia.
Qed.

(** What [SetData] builds for a chunk size between 7 and 65530. *)
Lemma SetData_spec (fuel : nat) (src : list byte) (chunkSize : Z) :
  7 ≤ chunkSize ≤ 65530 →
  (length (gzip_write src) < fuel)%nat →
  ∃ cs : list (list byte),
    SetData fuel src chunkSize
    = Some (Ok {| count := uint16 (Z.of_nat (length cs));
                  size := chunkSize - 6;
                  data := Some <$> cs |})
    ∧ concat cs = gzip_write src
    ∧ Forall (λ c, Z.of_nat (length c) ≤ chunkSize - 6) cs
    ∧ Z.of_nat (length cs)
      = (Z.of_nat (length (gzip_write src)) + (chunkSize - 6) - 1)
        / (chunkSize - 6).
Proof.
  intros Hs Hfuel. unfold SetData.
  rewrite decide_False by (unfold minChunkSize, chunkHeaderOffset; lia).
  rewrite decide_False by (change (1 ≪ 16 - chunkHeaderOffset) with 65530; lia).
  cbv zeta. unfold compress. change chunkHeaderOffset with 6.
  destruct (split_loop_spec (gzip_write src) (chunkSize - 6)) with
    (fuel := fuel) (iter := 0) (acc := @nil (option (list byte)))
    as (cs & Hrun & Hcat & Hlen & Hn); [lia | lia | lia |].
  exists cs. rewrite Hrun. simpl. rewrite length_fmap.
  split; [|split; [|split]].
  - unfold uint16 at 2. rewrite Z.mod_small by lia. reflexivity.
  - rewrite Hcat. reflexivity.
  - exact Hlen.
  - rewrite Hn, Z.sub_0_r, Z.max_r by lia. reflexivity.
Qed.

Lemma NewChunks_src_eq : NewChunks_src = SetData.
Proof. reflexivity. Qed.

End split.

(** ** One call of [ReadB64Chunk] *)

Section read.
Context `{!Base64}.

Lemma byte_at_ge (s : slice) (i : Z) : len s ≤ i → byte_at s i = None.
Proof.
  intros Hi. unfold byte_at, len in *.
  destruct (decide (0 ≤ i)); [|reflexivity].
  apply lookup_ge_None. lia.
Qed.

Lemma ReadB64Chunk_undecodable (ch : Chunks) (frame : string) :
  DecodeString frame = None →
  ReadB64Chunk ch frame
  = Returned ch false (Some "incorrect go-airgap message"%string).
Proof. intros Hdec. unfold ReadB64Chunk. rewrite Hdec. reflexivity. Qed.

(** A frame of fewer than six bytes: the header reads panic.  On a
    buffer whose count is still zero, a frame of four or five bytes has
    by then fixed the count and allocated the table. *)
Lemma ReadB64Chunk_short (ch : Chunks) (frame : string) (chunk : slice) :
  DecodeString frame = Some chunk →
  len chunk < 6 →
  ∃ ch' : Chunks,
    ReadB64Chunk ch frame = Panicked ch'
    ∧ (count ch ≠ 0 ∨ len chunk < 4 → ch' = ch).
Proof.
  intros Hdec Hlen. unfold ReadB64Chunk. rewrite Hdec.
  pose proof (byte_at_ge chunk 5 ltac:(lia)) as H5.
  destruct (decide (count ch = 0)) as [Hz|Hnz].
  - destruct (byte_at chunk 2) as [c2|] eqn:H2; simpl.
    + destruct (byte_at chunk 3) as [c3|] eqn:H3; simpl.
      * rewrite H5.
        destruct (byte_at chunk 0), (byte_at chunk 1), (byte_at chunk 4);
          (eexists; split; [reflexivity|]);
          (intros [Hc|Hc]; [done|]);
          rewrite byte_at_ge in H3 by lia; done.
      * exists ch. split; [reflexivity|done].
    + exists ch. split; [reflexivity|done].
  - rewrite H5.
    destruct (byte_at chunk 0), (byte_at chunk 1), (byte_at chunk 4);
      exists ch; (split; [reflexivity|done]).
Qed.

(** A frame of at least six bytes on a buffer whose count is fixed. *)
Lemma ReadB64Chunk_fixed (ch : Chunks) (frame : string)
    (h0 h1 h2 h3 h4 h5 : byte) (body sp : list byte) :
  DecodeString frame
  = Some (Slice (h0 :: h1 :: h2 :: h3 :: h4 :: h5 :: body) sp) →
  count ch ≠ 0 →
  ReadB64Chunk ch frame
  = match data ch !! Z.to_nat (le16 h0 h1) with
    | None => Panicked ch
    | Some (Some _) => Returned ch false None
    | Some None =>
        let hi := uint16 (6 + le16 h4 h5) in
        if decide (6 ≤ hi ∧ hi ≤ 6 + Z.of_nat (length (body ++ sp))) then
          Returned
            {| count := count ch; size := size ch;
               data := <[Z.to_nat (le16 h0 h1) :=
                           Some (copy (make (le16 h4 h5))
                                      (take (Z.to_nat (hi - 6)) (body ++ sp)))]>
                         (data ch) |}
            true None
        else
          Panicked
            {| count := count ch; size := size ch;
               data := <[Z.to_nat (le16 h0 h1) := Some (make (le16 h4 h5))]>
                         (data ch) |}
    end.
Proof.
  intros Hdec Hnz. unfold ReadB64Chunk. rewrite Hdec.
  rewrite decide_False by exact Hnz.
  change (byte_at _ 0) with (Some h0). change (byte_at _ 1) with (Some h1).
  change (byte_at _ 4) with (Some h4). change (byte_at _ 5) with (Some h5).
  cbv beta iota zeta.
  destruct (data ch !! Z.to_nat (le16 h0 h1)) as [[slot|]|]; try reflexivity.
  unfold reslice, cap, chunkHeaderOffset. cbn [elems spare count size data].
  set (hi := uint16 (6 + le16 h4 h5)).
  destruct (decide (6 ≤ hi ∧ hi ≤ 6 + Z.of_nat (length (body ++ sp)))) as [Hin|Hout].
  - rewrite decide_True by (rewrite length_app in Hin; simpl; lia).
    rewrite list_insert_insert_eq. reflexivity.
  - rewrite decide_False by (rewrite length_app in Hout; simpl; lia).
    reflexivity.
Qed.

(** The first frame of at least six bytes on a buffer whose count is
    zero: the count field of the frame is taken and the table
    allocated, then the call goes on as on a buffer with that count. *)
Lemma ReadB64Chunk_first (ch : Chunks) (frame : string)
    (h0 h1 h2 h3 h4 h5 : byte) (body sp : list byte) :
  DecodeString frame
  = Some (Slice (h0 :: h1 :: h2 :: h3 :: h4 :: h5 :: body) sp) →
  count ch = 0 →
  le16 h2 h3 ≠ 0 →
  ReadB64Chunk ch frame
  = ReadB64Chunk {| count := le16 h2 h3; size := size ch;
                    data := replicate (Z.to_nat (le16 h2 h3)) None |} frame.
Proof.
  intros Hdec Hz Hnz. unfold ReadB64Chunk. rewrite Hdec.
  rewrite decide_True by exact Hz.
  rewrite decide_False by exact Hnz.
  reflexivity.
Qed.

Lemma ReadB64Chunk_first_zero (ch : Chunks) (frame : string)
    (h0 h1 h2 h3 h4 h5 : byte) (body sp : list byte) :
  DecodeString frame
  = Some (Slice (h0 :: h1 :: h2 :: h3 :: h4 :: h5 :: body) sp) →
  count ch = 0 →
  le16 h2 h3 = 0 →
  ReadB64Chunk ch frame = Panicked {| count := 0; size := size ch; data := [] |}.
Proof.
  intros Hdec Hz Hnz. unfold ReadB64Chunk. rewrite Hdec.
  rewrite decide_True by exact Hz.
  change (byte_at _ 2) with (Some h2). change (byte_at _ 3) with (Some h3).
  cbn [mbind option_bind]. rewrite Hnz. reflexivity.
Qed.

End read.

(** ** Frames of a split buffer *)

Section frames.
Context `{!Base64}.

Lemma getChunkWithHeader_spec (ch : Chunks) (i : nat) (c : list byte) :
  0 ≤ size ch ≤ 65529 →
  data ch !! i = Some (Some c) →
  Z.of_nat (length c) ≤ size ch →
  getChunkWithHeader ch (Z.of_nat i)
  = Some (chunk_frame (count ch) (size ch) i c).
Proof.
  intros Hp Hi Hc. unfold getChunkWithHeader.
  rewrite Nat2Z.id, Hi. cbn [mbind option_bind default].
  unfold uint16, chunkHeaderOffset. rewrite Z.mod_small by lia.
  unfold make.
  replace (Z.to_nat (size ch + 6)) with (6 + Z.to_nat (size ch))%nat by lia.
  rewrite replicate_add.
  cbn [replicate app].
  repeat (rewrite store_Some by (simpl; lia); cbn [mbind option_bind]).
  cbn [list_insert take drop app].
  unfold chunk_frame. do 6 f_equal.
  apply copy_make_pad. lia.
Qed.

Lemma SerializeB64_spec (n p : Z) (cs : list (list byte)) :
  n = Z.of_nat (length cs) →
  0 ≤ p ≤ 65529 →
  Forall (λ c, Z.of_nat (length c) ≤ p) cs →
  SerializeB64 {| count := n; size := p; data := Some <$> cs |}
  = Some (imap (λ i c, EncodeToString (chunk_frame n p i c)) cs).
Proof.
  intros Hn Hp Hcs. unfold SerializeB64. apply mapM_Some.
  apply Forall2_same_length_lookup. split.
  - rewrite length_seqZ, length_imap. simpl. lia.
  - intros i z s Hz Hs. simpl in Hz.
    apply lookup_seqZ in Hz as [-> Hlt].
    apply list_lookup_imap_Some in Hs as (c & Hc & ->).
    rewrite Z.add_0_l.
    rewrite (getChunkWithHeader_spec _ i c); simpl; try done.
    + rewrite list_lookup_fmap, Hc. reflexivity.
    + eapply (proj1 (Forall_lookup _ _) Hcs); eassumption.
Qed.

(** The frame of chunk [i], given to a buffer whose count is that of the
    frame: the slot is written if it is empty and left alone
    otherwise. *)
Lemma ReadB64Chunk_chunk_frame (ch : Chunks) (frame : string)
    (n p : Z) (i : nat) (c sp : list byte) :
  DecodeString frame = Some (Slice (chunk_frame n p i c) sp) →
  0 < n < 65536 →
  Z.of_nat i < n →
  Z.of_nat (length c) ≤ p ≤ 65529 →
  count ch = n →
  ReadB64Chunk ch frame
  = match data ch !! i with
    | None => Panicked ch
    | Some (Some _) => Returned ch false None
    | Some None =>
        Returned {| count := count ch; size := size ch;
                    data := <[i := Some c]> (data ch) |} true None
    end.
Proof.
  intros Hdec Hn Hi Hc Hcount. unfold chunk_frame in Hdec. cbn [app] in Hdec.
  rewrite (ReadB64Chunk_fixed _ _ _ _ _ _ _ _ _ _ Hdec) by lia.
  rewrite !le16_bytes by lia. rewrite Nat2Z.id.
  destruct (data ch !! i) as [[slot|]|]; try reflexivity.
  cbv zeta. unfold uint16. rewrite Z.mod_small by lia.
  rewrite decide_True by (rewrite !length_app; lia).
  do 3 f_equal.
  replace (Z.to_nat (6 + Z.of_nat (length c) - 6)) with (length c) by lia.
  rewrite <- app_assoc, take_app_length.
  rewrite copy_make_exact by reflexivity. reflexivity.
Qed.

Lemma received_nil (cs : list (list byte)) :
  received cs [] = replicate (length cs) None.
Proof.
  unfold received. apply list_eq. intros i.
  rewrite list_lookup_imap.
  destruct (cs !! i) as [c|] eqn:Hc; simpl.
  - rewrite lookup_replicate_2; [reflexivity|]. by eapply lookup_lt_Some.
  - symmetry. apply lookup_replicate_None. by apply lookup_ge_None.
Qed.

Lemma received_all (cs : list (list byte)) (got : list nat) :
  (∀ i, (i < length cs)%nat → i ∈ got) → received cs got = Some <$> cs.
Proof.
  intros Hall. unfold received. apply list_eq. intros i.
  rewrite list_lookup_imap, list_lookup_fmap.
  destruct (cs !! i) as [c|] eqn:Hc; simpl; [|reflexivity].
  rewrite bool_decide_eq_true_2; [reflexivity|].
  apply Hall. by eapply lookup_lt_Some.
Qed.

Lemma received_insert (cs : list (list byte)) (got : list nat) (i : nat)
    (c : list byte) :
  cs !! i = Some c →
  <[i := Some c]> (received cs got) = received cs (i :: got).
Proof.
  intros Hc. unfold received. apply list_eq. intros j.
  destruct (decide (i = j)) as [<-|Hne].
  - rewrite list_lookup_insert_eq
      by (rewrite length_imap; by eapply lookup_lt_Some).
    rewrite list_lookup_imap, Hc. simpl.
    rewrite bool_decide_eq_true_2 by apply list_elem_of_here. reflexivity.
  - rewrite list_lookup_insert_ne by done.
    rewrite !list_lookup_imap.
    destruct (cs !! j) as [c'|]; simpl; [|reflexivity].
    rewrite (bool_decide_ext (j ∈ i :: got) (j ∈ got)); [reflexivity|].
    rewrite elem_of_cons. split; [intros [->|Hj]; done | by right].
Qed.

Lemma received_again (cs : list (list byte)) (got : list nat) (i : nat) :
  i ∈ got → received cs got = received cs (i :: got).
Proof.
  intros Hin. unfold received. apply imap_ext. intros j c _.
  rewrite (bool_decide_ext (j ∈ i :: got) (j ∈ got)); [reflexivity|].
  rewrite elem_of_cons. split; [intros [->|Hj]; done | by right].
Qed.

(** One frame of the message on a receiver of that message. *)
Lemma ReadB64Chunk_received (frame : string) (n p z : Z)
    (cs : list (list byte)) (got : list nat) (i : nat) (c sp : list byte) :
  DecodeString frame = Some (Slice (chunk_frame n p i c) sp) →
  n = Z.of_nat (length cs) →
  0 < n < 65536 →
  cs !! i = Some c →
  Z.of_nat (length c) ≤ p ≤ 65529 →
  ReadB64Chunk {| count := n; size := z; data := received cs got |} frame
  = Returned {| count := n; size := z; data := received cs (i :: got) |}
             (bool_decide (i ∉ got)) None.
Proof.
  intros Hdec Hn Hrange Hc Hlen.
  pose proof (lookup_lt_Some _ _ _ Hc) as Hi.
  rewrite (ReadB64Chunk_chunk_frame _ _ n p i c sp) by (simpl; done || lia).
  cbn [data count size]. unfold received at 1.
  rewrite list_lookup_imap, Hc. simpl.
  destruct (decide (i ∈ got)) as [Hin|Hout].
  - rewrite bool_decide_eq_true_2 by done.
    rewrite bool_decide_eq_false_2 by (intros Hn'; done).
    rewrite <- received_again by done. reflexivity.
  - rewrite bool_decide_eq_false_2 by done.
    rewrite bool_decide_eq_true_2 by done.
    fold (received cs got). rewrite received_insert by done. reflexivity.
Qed.

(** Frames of the message, in any order and with repetitions, on a
    receiver of that message. *)
Lemma read_frames_received (n p z : Z) (cs : list (list byte)) :
  n = Z.of_nat (length cs) →
  0 < n < 65536 →
  0 ≤ p ≤ 65529 →
  Forall (λ c, Z.of_nat (length c) ≤ p) cs →
  Base64Laws →
  ∀ (order : list (nat * list byte)) (got : list nat),
    Forall (λ ic, cs !! ic.1 = Some ic.2) order →
    read_frames {| count := n; size := z; data := received cs got |}
                ((λ ic, EncodeToString (chunk_frame n p ic.1 ic.2)) <$> order)
    = Some {| count := n; size := z;
              data := received cs (reverse order.*1 ++ got) |}.
Proof.
  intros Hn Hrange Hp Hcs Hlaw.
  induction order as [|[i c] order IH]; intros got Horder.
  - reflexivity.
  - apply Forall_cons in Horder as [Hc Horder]. simpl in Hc.
    rewrite fmap_cons. cbn [read_frames fst snd].
    destruct (decode_encode (chunk_frame n p i c)) as [sp Hdec].
    assert (Z.of_nat (length c) ≤ p) as Hlen.
    { eapply (proj1 (Forall_lookup _ _) Hcs); eassumption. }
    rewrite (ReadB64Chunk_received _ n p z cs got i c sp) by (done || lia).
    rewrite IH by done.
    rewrite fmap_cons, reverse_cons, <- app_assoc. reflexivity.
Qed.

End frames.

(** ** Reassembly in any order *)

Lemma Permutation_fmap_inv {A B : Type} (f : A → B) (k : list B) (l : list A) :
  k ≡ₚ f <$> l → ∃ l' : list A, k = f <$> l' ∧ l ≡ₚ l'.
Proof. exact (Permutation_map_inv f l). Qed.

Lemma fst_imap_pair {A : Type} (l : list A) :
  (imap pair l).*1 = seq 0 (length l).
Proof.
  rewrite fmap_imap, <- (list_fmap_id (seq 0 (length l))).
  apply (imap_seq_0 l id).
Qed.

Section reassembly.
Context `{!Gzip, !Base64}.

(** [Data] on a buffer whose slots are all filled. *)
Lemma Data_complete (n z : Z) (cs : list (list byte)) :
  n = Z.of_nat (length cs) →
  Data {| count := n; size := z; data := Some <$> cs |}
  = Some (match uncompress (concat cs) with Ok r => r | _ => [] end).
Proof.
  intros Hn. unfold Data. cbn [count data].
  assert (mapM (λ index : Z, (Some <$> cs) !! Z.to_nat index) (seqZ 0 n)
          = Some (Some <$> cs)) as ->.
  { apply mapM_Some, Forall2_same_length_lookup. split.
    - rewrite length_seqZ, length_fmap. lia.
    - intros i x y Hx Hy. apply lookup_seqZ in Hx as [-> _].
      rewrite Z.add_0_l, Nat2Z.id. exact Hy. }
  cbn [mbind option_bind]. rewrite <- list_fmap_compose.
  change (default [] ∘ Some) with (@id (list byte)).
  rewrite list_fmap_id. reflexivity.
Qed.

(** The frames of a message of [n] chunks, in any order, on the empty
    buffer. *)
Lemma read_frames_new (n p : Z) (cs : list (list byte))
    (frames : list string) :
  Base64Laws →
  n = Z.of_nat (length cs) →
  0 < n < 65536 →
  0 ≤ p ≤ 65529 →
  Forall (λ c, Z.of_nat (length c) ≤ p) cs →
  frames ≡ₚ imap (λ i c, EncodeToString (chunk_frame n p i c)) cs →
  read_frames NewChunks frames
  = Some {| count := n; size := 0; data := Some <$> cs |}.
Proof.
  intros Hlaw Hn Hrange Hp Hcs Hperm.
  set (g := λ ic : nat * list byte, EncodeToString (chunk_frame n p ic.1 ic.2)).
  assert (imap (λ i c, EncodeToString (chunk_frame n p i c)) cs
          = g <$> imap pair cs) as Himap.
  { rewrite fmap_imap. reflexivity. }
  rewrite Himap in Hperm.
  apply Permutation_fmap_inv in Hperm as (order & -> & Hperm).
  assert (Forall (λ ic, cs !! ic.1 = Some ic.2) order) as Horder.
  { apply Forall_forall. intros [i c] Hin.
    rewrite <- Hperm in Hin.
    apply elem_of_lookup_imap in Hin as (j & y & Heq & Hy).
    simplify_eq. exact Hy. }
  assert (∀ i, (i < length cs)%nat → i ∈ reverse order.*1 ++ []) as Hall.
  { intros i Hi. rewrite app_nil_r, elem_of_reverse.
    rewrite <- Hperm, fst_imap_pair. apply elem_of_seq. lia. }
  destruct order as [|[i c] order].
  { apply Permutation_nil_r in Hperm.
    apply (f_equal length) in Hperm. rewrite length_imap in Hperm.
    simpl in Hperm. lia. }
  transitivity (read_frames {| count := n; size := 0; data := received cs [] |}
                            (g <$> (i, c) :: order)).
  - rewrite fmap_cons. cbn [read_frames]. f_equal.
    destruct (decode_encode (chunk_frame n p i c)) as [sp Hdec].
    unfold g at 1 3. cbn [fst snd].
    unfold chunk_frame in Hdec. cbn [app] in Hdec.
    rewrite (ReadB64Chunk_first _ _ _ _ _ _ _ _ _ _ Hdec);
      rewrite ?le16_bytes by lia; try done; try lia.
    rewrite received_nil. cbn [size NewChunks].
    replace (Z.to_nat n) with (length cs) by lia. reflexivity.
  - unfold g. rewrite (read_frames_received n p 0 cs) by done.
    rewrite received_all by exact Hall. reflexivity.
Qed.

End reassembly.

(** ** The executable instances satisfy the laws *)

Lemma b64_alphabet :
  Forall (λ n, b64_sextet (b64_char n) = Some n
               ∧ b64_char n ≠ b64_pad
               ∧ ¬ b64_newline (b64_char n))
         (seqZ 0 64).
Proof. apply (bool_decide_unpack _). vm_compute. exact I. Qed.

Lemma b64_sextet_char (n : Z) :
  0 ≤ n < 64 → b64_sextet (b64_char n) = Some n.
Proof.
  intros Hn. apply (proj1 (Forall_seqZ _ _ _) b64_alphabet). lia.
Qed.

Lemma b64_char_not_pad (n : Z) : 0 ≤ n < 64 → b64_char n ≠ b64_pad.
Proof.
  intros Hn. apply (proj1 (Forall_seqZ _ _ _) b64_alphabet n). lia.
Qed.

Lemma b64_char_not_newline (n : Z) :
  0 ≤ n < 64 → ¬ b64_newline (b64_char n).
Proof.
  intros Hn. apply (proj1 (Forall_seqZ _ _ _) b64_alphabet n). lia.
Qed.

Lemma b64_pad_not_newline : ¬ b64_newline b64_pad.
Proof. apply (bool_decide_unpack _). vm_compute. exact I. Qed.

(** Induction over a byte sequence three bytes at a time. *)
Lemma list_ind3 {A : Type} (P : list A → Prop) :
  P [] →
  (∀ a, P [a]) →
  (∀ a b, P [a; b]) →
  (∀ a b c l, P l → P (a :: b :: c :: l)) →
  ∀ l, P l.
Proof.
  intros H0 H1 H2 H3.
  refine (fix IH (l : list A) : P l :=
            match l with
            | [] => H0
            | [a] => H1 a
            | [a; b] => H2 a b
            | a :: b :: c :: l' => H3 a b c l' (IH l')
            end).
Qed.

Ltac b64_ranges :=
  repeat match goal with
         | b : byte |- _ =>
             lazymatch goal with
             | _ : 0 ≤ byte_to_Z b < 256 |- _ => fail
             | _ => pose proof (byte_to_Z_range b)
             end
         end.

Lemma byte_of_Z_eq (z : Z) (b : byte) : z = byte_to_Z b → byte_of_Z z = b.
Proof. intros ->. apply byte_of_to_Z. Qed.

Ltac b64_arith := b64_ranges; Z.div_mod_to_equations; lia.

Lemma b64_decode_encode (src : list byte) :
  b64_decode (b64_encode src) = Some src.
Proof.
  induction src as [|a|a b|a b c src IH] using list_ind3.
  - reflexivity.
  - cbn [b64_encode b64_decode].
    rewrite ?b64_sextet_char by b64_arith. cbn [mbind option_bind].
    rewrite decide_True by reflexivity. rewrite decide_True by done.
    repeat (f_equal; try (apply byte_of_Z_eq; b64_arith)).
  - cbn [b64_encode b64_decode].
    rewrite ?b64_sextet_char by b64_arith. cbn [mbind option_bind].
    rewrite decide_False by (apply b64_char_not_pad; b64_arith).
    rewrite ?b64_sextet_char by b64_arith. cbn [mbind option_bind].
    rewrite decide_True by reflexivity. rewrite decide_True by done.
    repeat (f_equal; try (apply byte_of_Z_eq; b64_arith)).
  - cbn [b64_encode b64_decode].
    rewrite ?b64_sextet_char by b64_arith. cbn [mbind option_bind].
    rewrite decide_False by (apply b64_char_not_pad; b64_arith).
    rewrite ?b64_sextet_char by b64_arith. cbn [mbind option_bind].
    rewrite decide_False by (apply b64_char_not_pad; b64_arith).
    rewrite ?b64_sextet_char by b64_arith. cbn [mbind option_bind].
    rewrite IH. cbn [mbind option_bind].
    repeat (f_equal; try (apply byte_of_Z_eq; b64_arith)).
Qed.

Lemma b64_encode_no_newline (src : list byte) :
  filter (λ c, ¬ b64_newline c) (b64_encode src) = b64_encode src.
Proof.
  pose proof b64_pad_not_newline as Hpad.
  induction src as [|a|a b|a b c src IH] using list_ind3.
  - reflexivity.
  - cbn [b64_encode].
    repeat (rewrite filter_cons_True
              by (first [exact Hpad | apply b64_char_not_newline; b64_arith])).
    reflexivity.
  - cbn [b64_encode].
    repeat (rewrite filter_cons_True
              by (first [exact Hpad | apply b64_char_not_newline; b64_arith])).
    reflexivity.
  - cbn [b64_encode].
    repeat (rewrite filter_cons_True
              by (first [exact Hpad | apply b64_char_not_newline; b64_arith])).
    rewrite IH. reflexivity.
Qed.

Lemma StdEncoding_laws : @Base64Laws StdEncoding.
Proof.
  intros src. eexists. cbn [EncodeToString DecodeString StdEncoding].
  rewrite list_ascii_of_string_of_list_ascii.
  rewrite b64_encode_no_newline, b64_decode_encode. reflexivity.
Qed.

Lemma StoredGzip_laws : @GzipLaws StoredGzip.
Proof.
  intros src. cbn [gzip_readall gzip_write StoredGzip].
  rewrite decide_False by done. rewrite decide_True by reflexivity.
  reflexivity.
Qed.

Lemma xor_byte_involutive (k b : byte) : xor_byte k (xor_byte k b) = b.
Proof.
  unfold xor_byte. rewrite byte_to_of_Z.
  pose proof (byte_to_Z_range k) as Hk. pose proof (byte_to_Z_range b) as Hb.
  assert (0 ≤ Z.lxor (byte_to_Z k) (byte_to_Z b) < 256) as Hx.
  { split; [apply Z.lxor_nonneg; lia|].
    destruct (decide (Z.lxor (byte_to_Z k) (byte_to_Z b) = 0)) as [->|Hnz]; [lia|].
    change 256 with (2 ^ 8). apply Z.log2_lt_pow2.
    - pose proof (Z.lxor_nonneg (byte_to_Z k) (byte_to_Z b)). lia.
    - eapply Z.le_lt_trans; [apply Z.log2_lxor; lia|].
      apply Z.max_lub_lt.
      + destruct (decide (byte_to_Z k = 0)) as [->|?]; [done|].
        apply Z.log2_lt_pow2; lia.
      + destruct (decide (byte_to_Z b = 0)) as [->|?]; [done|].
        apply Z.log2_lt_pow2; lia. }
  rewrite Z.mod_small by lia.
  rewrite <- Z.lxor_assoc, Z.lxor_nilpotent, Z.lxor_0_l.
  apply byte_of_to_Z.
Qed.

Lemma XorCipher_inverts (k : byte) : decrypt_inverts_encrypt (XorCipher k).
Proof.
  intros src c Henc. exists []. cbn in *. injection Henc as <-.
  do 2 f_equal. rewrite <- list_fmap_compose.
  rewrite <- (list_fmap_id src) at 2.
  apply list_fmap_ext. intros i x _. apply xor_byte_involutive.
Qed.

(** ** Chunk sizes accepted by the splitter *)

Section chunk_sizes.
Context `{!Gzip}.

(** Chunk size 6 passes both guards, and the loop then advances by a
    payload capacity of zero bytes: on a non-empty stream the call does
    not return. *)
Lemma SetData_chunk_size_6_diverges (fuel : nat) (src : list byte) :
  gzip_write src ≠ [] → SetData fuel src 6 = None.
Proof.
  intros Hne. unfold SetData.
  rewrite decide_False by (unfold minChunkSize, chunkHeaderOffset; lia).
  rewrite decide_False by (change (1 ≪ 16 - chunkHeaderOffset) with 65530; lia).
  cbv zeta. unfold compress.
  change (6 - chunkHeaderOffset) with 0.
  rewrite split_loop_zero; [reflexivity|].
  destruct (gzip_write src); [done|]. simpl. lia.
Qed.

(** C3 (as amended).  A chunk size below 6 is refused with an error, a
    chunk size above 65530 (65535 and 65536 among them) is refused with
    an error, and a chunk size from 7 to 65530 is accepted for every
    input: with fuel beyond the length of the compressed stream the call
    returns a buffer.  The same holds for the constructor
    [NewChunks(src, chunkSize)]. *)
Theorem chunk_size_boundaries (fuel : nat) (src : list byte) (chunkSize : Z) :
  (chunkSize < 6 →
     SetData fuel src chunkSize = Some (Err "min chunk size 32")
     ∧ NewChunks_src fuel src chunkSize = Some (Err "min chunk size 32"))
  ∧ (65530 < chunkSize →
     SetData fuel src chunkSize = Some (Err "max chunk size 65531")
     ∧ NewChunks_src fuel src chunkSize = Some (Err "max chunk size 65531"))
  ∧ (7 ≤ chunkSize ≤ 65530 →
     (length (gzip_write src) < fuel)%nat →
     ∃ ch : Chunks,
       SetData fuel src chunkSize = Some (Ok ch)
       ∧ NewChunks_src fuel src chunkSize = Some (Ok ch)).
Proof.
  change (NewChunks_src fuel src chunkSize) with (SetData fuel src chunkSize).
  split; [|split].
  - intros Hlt. split; apply SetData_guard_min, Hlt.
  - intros Hgt. split; apply SetData_guard_max, Hgt.
  - intros Hs Hfuel.
    destruct (SetData_spec fuel src chunkSize Hs Hfuel) as (cs & Hrun & _).
    eexists. split; exact Hrun.
Qed.

End chunk_sizes.

(** C3, witness: sizes 5, 65536 and 8 on the three bytes [hi!]. *)
Lemma chunk_size_boundaries_witness :
  @SetData StoredGzip 6 [x68; x69; x21] 5 = Some (Err "min chunk size 32")
  ∧ @SetData StoredGzip 6 [x68; x69; x21] 65536
    = Some (Err "max chunk size 65531")
  ∧ ∃ ch : Chunks, @SetData StoredGzip 6 [x68; x69; x21] 8 = Some (Ok ch).
Proof.
  split; [|split].
  - apply (proj1 (@chunk_size_boundaries StoredGzip 6 [x68; x69; x21] 5)).
    lia.
  - apply (proj1 (proj2 (@chunk_size_boundaries StoredGzip 6 [x68; x69; x21]
                           65536))).
    lia.
  - destruct (proj2 (proj2 (@chunk_size_boundaries StoredGzip 6
                              [x68; x69; x21] 8)))
      as (ch & Hch & _); [lia | simpl; lia |].
    exists ch. exact Hch.
Defined.

(** C3, counterexample: chunk size 65535 does not succeed. *)
Lemma chunk_size_65535_is_refused :
  @SetData StoredGzip 6 [x68; x69; x21] 65535
  = Some (Err "max chunk size 65531").
Proof. reflexivity. Qed.

(** ** Round trip through the frames *)

Section roundtrip.
Context `{!Gzip, !Base64}.

(** C1 (as amended).  For every byte sequence [b] and every chunk size
    [s] from 7 to 65530 such that the compressed stream fills at most
    65535 chunks, [SetData] returns a buffer, [SerializeB64] returns its
    frames, and feeding any permutation of the frames to an empty buffer
    with [ReadB64Chunk] gives a buffer on which [Data] returns exactly
    [b]. *)
Theorem chunks_roundtrip_any_order (fuel : nat) (b : list byte) (s : Z) :
  Base64Laws →
  GzipLaws →
  7 ≤ s ≤ 65530 →
  Z.of_nat (length (gzip_write b)) ≤ 65535 * (s - 6) →
  (length (gzip_write b) < fuel)%nat →
  ∃ (ch : Chunks) (frames : list string),
    SetData fuel b s = Some (Ok ch)
    ∧ SerializeB64 ch = Some frames
    ∧ ∀ frames' : list string,
        frames' ≡ₚ frames →
        ∃ ch' : Chunks,
          read_frames NewChunks frames' = Some ch'
          ∧ Data ch' = Some b.
Proof.
  intros Hb64 Hgz Hs Hmax Hfuel.
  destruct (SetData_spec fuel b s Hs Hfuel) as (cs & Hrun & Hcat & Hlen & Hn).
  assert (Z.of_nat (length cs) < 65536) as Hcount.
  { rewrite Hn. apply Z.div_lt_upper_bound; lia. }
  assert (uint16 (Z.of_nat (length cs)) = Z.of_nat (length cs)) as Hu.
  { unfold uint16. apply Z.mod_small. lia. }
  rewrite Hu in Hrun.
  eexists _, _. split; [exact Hrun|]. split.
  { apply SerializeB64_spec; [reflexivity | lia | exact Hlen]. }
  intros frames' Hperm.
  assert (uncompress (concat cs) = Ok b) as Hunc.
  { rewrite Hcat. unfold uncompress. rewrite readall_write. reflexivity. }
  destruct cs as [|c cs].
  - apply Permutation_nil_r in Hperm as ->.
    exists NewChunks. split; [reflexivity|].
    unfold Data. cbn [count NewChunks]. rewrite seqZ_nil by lia.
    cbn. cbn in Hunc. rewrite Hunc. reflexivity.
  - eexists. split.
    + apply (read_frames_new (Z.of_nat (length (c :: cs))) (s - 6) (c :: cs));
        [exact Hb64 | reflexivity | simpl length in *; lia | lia
        | exact Hlen | exact Hperm].
    + rewrite Data_complete by reflexivity. rewrite Hunc. reflexivity.
Qed.

(** The chunk count is a 16-bit field: what [SetData] stores is the
    number of chunks modulo 65536. *)
Lemma SetData_count_wraps (fuel : nat) (b : list byte) (s : Z) :
  7 ≤ s ≤ 65530 →
  Z.of_nat (length (gzip_write b)) = 65536 * (s - 6) →
  (length (gzip_write b) < fuel)%nat →
  ∃ ch : Chunks,
    SetData fuel b s = Some (Ok ch)
    ∧ Z.of_nat (length (data ch)) = 65536
    ∧ count ch = 0
    ∧ SerializeB64 ch = Some [].
Proof.
  intros Hs Hlen Hfuel.
  destruct (SetData_spec fuel b s Hs Hfuel) as (cs & Hrun & _ & _ & Hn).
  assert (Z.of_nat (length cs) = 65536) as Hcs.
  { rewrite Hn, Hlen.
    replace (65536 * (s - 6) + (s - 6) - 1)
      with ((s - 6 - 1) + 65536 * (s - 6)) by lia.
    rewrite Z.div_add by lia. rewrite Z.div_small by lia. lia. }
  rewrite Hcs in Hrun. change (uint16 65536) with 0 in Hrun.
  eexists. split; [exact Hrun|]. cbn [data count].
  rewrite length_fmap. split; [exact Hcs|]. split; [reflexivity|].
  unfold SerializeB64. cbn [count]. rewrite seqZ_nil by lia. reflexivity.
Qed.

End roundtrip.

(** C1, witness: the three bytes [hi!] with chunk size 8, three frames. *)
Lemma chunks_roundtrip_any_order_witness :
  ∃ (ch : Chunks) (frames : list string),
    @SetData StoredGzip 6 [x68; x69; x21] 8 = Some (Ok ch)
    ∧ @SerializeB64 StdEncoding ch = Some frames
    ∧ ∀ frames' : list string,
        frames' ≡ₚ frames →
        ∃ ch' : Chunks,
          @read_frames StdEncoding NewChunks frames' = Some ch'
          ∧ @Data StoredGzip ch' = Some [x68; x69; x21].
Proof.
  apply (@chunks_roundtrip_any_order StoredGzip StdEncoding 6
           [x68; x69; x21] 8).
  - exact StdEncoding_laws.
  - exact StoredGzip_laws.
  - lia.
  - simpl. lia.
  - simpl. lia.
Defined.

(** C1, counterexample: with chunk size 65535, inside the range of the
    claim, there is no buffer to serialize. *)
Lemma roundtrip_has_no_buffer_at_65535 :
  ¬ ∃ (fuel : nat) (ch : Chunks),
      @SetData StoredGzip fuel [x68; x69; x21] 65535 = Some (Ok ch).
Proof. intros (fuel & ch & Hch). discriminate Hch. Qed.

(** An input whose stream fills 65536 chunks of one byte: the buffer
    [SetData] returns holds them all, its count is zero, and it
    serializes to no frame at all. *)
Lemma count_wraps_at_65536_chunks :
  ∃ ch : Chunks,
    @SetData StoredGzip (Z.to_nat 65537) (replicate (Z.to_nat 65534) x00) 7
    = Some (Ok ch)
    ∧ Z.of_nat (length (data ch)) = 65536
    ∧ count ch = 0
    ∧ @SerializeB64 StdEncoding ch = Some [].
Proof.
  assert (length (@gzip_write StoredGzip (replicate (Z.to_nat 65534) x00))
          = Z.to_nat 65536) as Hlen.
  { cbn [gzip_write StoredGzip]. rewrite length_app, length_replicate.
    unfold gzip_magic. cbn [length]. lia. }
  apply SetData_count_wraps; [lia | rewrite Hlen; lia | rewrite Hlen; lia].
Qed.

(** ** The completion predicate *)

Section ready.
Context `{!Base64}.

(** Whatever the frame and however the call ends, the table stays as
    long as the count says. *)
Lemma ReadB64Chunk_table_length (ch : Chunks) (frame : string) :
  Z.of_nat (length (data ch)) = count ch →
  Z.of_nat (length (data (state_after (ReadB64Chunk ch frame))))
  = count (state_after (ReadB64Chunk ch frame)).
Proof.
  intros Hlen. unfold ReadB64Chunk.
  destruct (DecodeString frame) as [chunk|]; [|exact Hlen].
  set (first := if decide (count ch = 0) then _ else Some ch).
  assert (∀ ch1, first = Some ch1 →
                 Z.of_nat (length (data ch1)) = count ch1) as Hfirst.
  { intros ch1. unfold first. destruct (decide (count ch = 0)).
    - destruct (byte_at chunk 2) as [c2|]; [|done].
      destruct (byte_at chunk 3) as [c3|]; [|done].
      intros [= <-]. cbn [data count]. rewrite length_replicate.
      pose proof (le16_range c2 c3). lia.
    - intros [= <-]. exact Hlen. }
  destruct first as [ch1|]; [|exact Hlen].
  specialize (Hfirst ch1 eq_refl).
  destruct (byte_at chunk 0), (byte_at chunk 1), (byte_at chunk 4),
    (byte_at chunk 5); try exact Hfirst.
  destruct (data ch1 !! _) as [[slot|]|]; try exact Hfirst.
  destruct (reslice _ _ _); cbn [state_after data count];
    rewrite ?length_insert; exact Hfirst.
Qed.

Lemma reachable_table_length (ch : Chunks) :
  reachable ch → Z.of_nat (length (data ch)) = count ch.
Proof.
  induction 1 as [|ch ch' frame w err _ IH Hread|ch ch' frame _ IH Hread].
  - reflexivity.
  - pose proof (ReadB64Chunk_table_length ch frame IH) as Hinv.
    rewrite Hread in Hinv. exact Hinv.
  - pose proof (ReadB64Chunk_table_length ch frame IH) as Hinv.
    rewrite Hread in Hinv. exact Hinv.
Qed.

(** [IsReady] compares the length of the table with the count, and the
    table is allocated with that length: on every buffer a receiver can
    be in, the answer is [true]. *)
Lemma IsReady_reachable (ch : Chunks) : reachable ch → IsReady ch = true.
Proof.
  intros Hch. unfold IsReady. apply bool_decide_eq_true_2.
  apply reachable_table_length, Hch.
Qed.

End ready.

(** C2 (the code departs from the claim).  Two of the three frames of a
    three-chunk message are delivered to an empty buffer: slot 2 is
    still empty and [IsReady] is already [true]; it was [true] on the
    empty buffer as well. *)
Theorem IsReady_true_with_a_chunk_missing :
  ∃ ch : Chunks,
    @read_frames StdEncoding NewChunks ["AAADAAIAH4s="; "AQADAAIAaGk="]%string
    = Some ch
    ∧ count ch = 3
    ∧ data ch = [Some [x1f; x8b]; Some [x68; x69]; None]
    ∧ IsReady ch = true
    ∧ IsReady NewChunks = true.
Proof. eexists. repeat split; vm_compute; reflexivity. Qed.

(** ** Frames that are not accepted *)

Section rejected.
Context `{!Base64}.

(** C4 (as amended).  On a buffer whose count is fixed at [n] and whose
    table has [n] slots, a frame whose index field is [n] or more makes
    [ReadB64Chunk] panic: no error is returned, no slot is written, and
    the buffer is as it was before the call. *)
Theorem index_out_of_range_panics (ch : Chunks) (frame : string)
    (chunk : slice) (c0 c1 : byte) :
  count ch ≠ 0 →
  Z.of_nat (length (data ch)) = count ch →
  DecodeString frame = Some chunk →
  byte_at chunk 0 = Some c0 →
  byte_at chunk 1 = Some c1 →
  count ch ≤ le16 c0 c1 →
  ReadB64Chunk ch frame = Panicked ch.
Proof.
  intros Hnz Hlen Hdec H0 H1 Hidx. unfold ReadB64Chunk.
  rewrite Hdec, decide_False by exact Hnz. rewrite H0, H1.
  destruct (byte_at chunk 4); [|reflexivity].
  destruct (byte_at chunk 5); [|reflexivity].
  rewrite (proj2 (lookup_ge_None _ _)) by lia. reflexivity.
Qed.

(** C5 (as amended).  A frame that is not base64 makes [ReadB64Chunk]
    return the error [incorrect go-airgap message] and leaves the buffer
    as it was.  A frame that decodes to fewer than six bytes makes it
    panic at a header read, and no error is returned.  At the panic the
    buffer is as it was before the call when its count was already fixed
    or the frame has fewer than four bytes; a first frame of four or
    five bytes, on a buffer whose count is zero, has by then set the
    count to its count field and allocated a table of that many empty
    slots. *)
Theorem malformed_frame (ch : Chunks) (frame : string) :
  (DecodeString frame = None →
     ReadB64Chunk ch frame
     = Returned ch false (Some "incorrect go-airgap message"%string))
  ∧ (∀ chunk : slice,
       DecodeString frame = Some chunk →
       len chunk < 6 →
       ∃ ch' : Chunks,
         ReadB64Chunk ch frame = Panicked ch'
         ∧ (count ch ≠ 0 ∨ len chunk < 4 → ch' = ch)
         ∧ (count ch = 0 →
            4 ≤ len chunk →
            ∃ c2 c3 : byte,
              byte_at chunk 2 = Some c2
              ∧ byte_at chunk 3 = Some c3
              ∧ ch' = {| count := le16 c2 c3; size := size ch;
                         data := replicate (Z.to_nat (le16 c2 c3)) None |})).
Proof.
  split; [apply ReadB64Chunk_undecodable|].
  intros chunk Hdec Hlen.
  destruct (ReadB64Chunk_short ch frame chunk Hdec Hlen) as (ch' & Hrun & Hsame).
  exists ch'. split; [exact Hrun|]. split; [exact Hsame|].
  intros Hzero Hfour.
  assert (is_Some (byte_at chunk 2)) as [c2 H2].
  { unfold byte_at, len in *. rewrite decide_True by lia.
    apply lookup_lt_is_Some. lia. }
  assert (is_Some (byte_at chunk 3)) as [c3 H3].
  { unfold byte_at, len in *. rewrite decide_True by lia.
    apply lookup_lt_is_Some. lia. }
  exists c2, c3. split; [exact H2|]. split; [exact H3|].
  unfold ReadB64Chunk in Hrun. rewrite Hdec in Hrun.
  rewrite decide_True in Hrun by exact Hzero.
  rewrite H2, H3 in Hrun. cbn [mbind option_bind] in Hrun.
  rewrite (byte_at_ge chunk 5) in Hrun by lia.
  destruct (byte_at chunk 0), (byte_at chunk 1), (byte_at chunk 4);
    injection Hrun as <-; reflexivity.
Qed.

(** What a successful call leaves: the slot of the frame is filled. *)
Lemma returned_slot_filled (ch0 ch : Chunks) (frame : string)
    (wasAdded : bool) :
  ReadB64Chunk ch0 frame = Returned ch wasAdded None → slot_filled ch frame.
Proof.
  unfold ReadB64Chunk. destruct (DecodeString frame) as [chunk|] eqn:Hdec;
    [|discriminate].
  set (first := if decide (count ch0 = 0) then _ else Some ch0).
  assert (∀ ch1, first = Some ch1 →
                 is_Some (data ch1 !! Z.to_nat 0) → count ch1 ≠ 0) as Hfirst.
  { intros ch1. unfold first. destruct (decide (count ch0 = 0)).
    - destruct (byte_at chunk 2) as [c2|]; [|done].
      destruct (byte_at chunk 3) as [c3|]; [|done].
      intros [= <-]. cbn [data count]. intros [x Hx] Hz.
      rewrite Hz in Hx. discriminate Hx.
    - intros [= <-] _. done. }
  destruct first as [ch1|]; [|discriminate].
  specialize (Hfirst ch1 eq_refl).
  destruct (byte_at chunk 0) as [c0|] eqn:H0; [|discriminate].
  destruct (byte_at chunk 1) as [c1|] eqn:H1; [|discriminate].
  destruct (byte_at chunk 4) as [c4|] eqn:H4; [|discriminate].
  destruct (byte_at chunk 5) as [c5|] eqn:H5; [|discriminate].
  assert (∀ x, data ch1 !! Z.to_nat (le16 c0 c1) = Some x → count ch1 ≠ 0)
    as Hcount.
  { intros x Hx. apply Hfirst. apply lookup_lt_is_Some.
    apply lookup_lt_Some in Hx. simpl. lia. }
  destruct (data ch1 !! Z.to_nat (le16 c0 c1)) as [[slot|]|] eqn:Hslot;
    [| |discriminate].
  - intros [= <- _]. exists chunk, c0, c1, c4, c5, slot.
    repeat split; try done. by eapply Hcount.
  - destruct (reslice _ _ _) as [src|]; [|discriminate].
    intros [= <- _]. eexists chunk, c0, c1, c4, c5, _.
    repeat split; try done; cbn [count data].
    + by eapply Hcount.
    + rewrite list_insert_insert_eq. apply list_lookup_insert_eq.
      by eapply lookup_lt_Some.
Qed.

Lemma slot_filled_ignored (ch : Chunks) (frame : string) :
  slot_filled ch frame → ReadB64Chunk ch frame = Returned ch false None.
Proof.
  intros (chunk & c0 & c1 & c4 & c5 & payload
          & Hdec & Hnz & H0 & H1 & H4 & H5 & Hslot).
  unfold ReadB64Chunk. rewrite Hdec, decide_False by exact Hnz.
  rewrite H0, H1, H4, H5, Hslot. reflexivity.
Qed.

(** C6.  A frame given a second time, to the buffer its first delivery
    left, changes nothing and reports [wasAdded = false]; and whenever
    the slot a frame addresses is already filled, the call returns the
    buffer unchanged with [wasAdded = false] and no error, whatever
    payload the frame carries. *)
Theorem duplicate_frame_ignored (ch : Chunks) (frame : string) :
  (∃ (ch0 : Chunks) (wasAdded : bool),
     ReadB64Chunk ch0 frame = Returned ch wasAdded None)
  ∨ slot_filled ch frame →
  ReadB64Chunk ch frame = Returned ch false None.
Proof.
  intros [(ch0 & wasAdded & Hfirst)|Hfilled]; apply slot_filled_ignored.
  - eapply returned_slot_filled, Hfirst.
  - exact Hfilled.
Qed.

End rejected.

(** C4, witness: index 5 on a buffer of three slots. *)
Lemma index_out_of_range_panics_witness :
  @ReadB64Chunk StdEncoding
    {| count := 3; size := 0; data := [None; Some [x68; x69]; None] |}
    "BQADAAIAaGk="
  = Panicked
      {| count := 3; size := 0; data := [None; Some [x68; x69]; None] |}.
Proof.
  apply (@index_out_of_range_panics StdEncoding _ _
           (Slice [x05; x00; x03; x00; x02; x00; x68; x69] [x00]) x05 x00).
  - simpl. lia.
  - reflexivity.
  - reflexivity.
  - reflexivity.
  - reflexivity.
  - vm_compute. discriminate.
Defined.

(** C4, counterexample: the call with index 5 on three slots does not
    return an error, it panics. *)
Lemma index_out_of_range_returns_no_error :
  let ch := {| count := 3; size := 0; data := [None; Some [x68; x69]; None] |} in
  @ReadB64Chunk StdEncoding ch "BQADAAIAaGk=" = Panicked ch
  ∧ ¬ ∃ (ch' : Chunks) (wasAdded : bool) (err : string),
        @ReadB64Chunk StdEncoding ch "BQADAAIAaGk="
        = Returned ch' wasAdded (Some err).
Proof.
  split; [reflexivity|]. intros (ch' & wasAdded & err & Hret).
  discriminate Hret.
Qed.

(** C5, witness: on a buffer that holds chunk 1 of 3, a string that
    is not base64 and a frame of three bytes; on the empty buffer, a
    frame of five bytes whose count field is 2. *)
Lemma malformed_frame_witness :
  @ReadB64Chunk StdEncoding
    {| count := 3; size := 0; data := [None; Some [x68; x69]; None] |}
    "AQADAAIAaGk"
  = Returned {| count := 3; size := 0; data := [None; Some [x68; x69]; None] |}
             false (Some "incorrect go-airgap message"%string)
  ∧ @ReadB64Chunk StdEncoding
      {| count := 3; size := 0; data := [None; Some [x68; x69]; None] |}
      "AAAD"
    = Panicked {| count := 3; size := 0; data := [None; Some [x68; x69]; None] |}
  ∧ @ReadB64Chunk StdEncoding NewChunks "AQACAAI="
    = Panicked {| count := 2; size := 0; data := [None; None] |}.
Proof.
  split; [|split].
  - apply (proj1 (@malformed_frame StdEncoding
                    {| count := 3; size := 0;
                       data := [None; Some [x68; x69]; None] |}
                    "AQADAAIAaGk")).
    reflexivity.
  - destruct (proj2 (@malformed_frame StdEncoding
                       {| count := 3; size := 0;
                          data := [None; Some [x68; x69]; None] |}
                       "AAAD")
                (Slice [x00; x00; x03] []) eq_refl eq_refl)
      as (ch' & Hrun & Hsame & _).
    rewrite Hrun, Hsame; [reflexivity|]. left. discriminate.
  - destruct (proj2 (@malformed_frame StdEncoding NewChunks "AQACAAI=")
                (Slice [x01; x00; x02; x00; x02] [x00]) eq_refl eq_refl)
      as (ch' & Hrun & _ & Hfirst).
    destruct Hfirst as (c2 & c3 & H2 & H3 & Hch'); [reflexivity|discriminate|].
    injection H2 as <-. injection H3 as <-.
    rewrite Hrun, Hch'. reflexivity.
Defined.

(** C5, counterexample: a frame of four bytes on an empty buffer.  No
    error is returned, and the buffer is not as it was: the count is
    fixed and the table allocated. *)
Lemma short_frame_panics_after_allocating :
  @ReadB64Chunk StdEncoding NewChunks "AAADAA=="
  = Panicked {| count := 3; size := 0; data := [None; None; None] |}
  ∧ ¬ ∃ (wasAdded : bool) (err : string),
        @ReadB64Chunk StdEncoding NewChunks "AAADAA=="
        = Returned NewChunks wasAdded (Some err).
Proof.
  split; [reflexivity|]. intros (wasAdded & err & Hret). discriminate Hret.
Qed.

(** C6, witness: the frame of chunk 1, twice. *)
Lemma duplicate_frame_ignored_witness :
  let ch := {| count := 3; size := 0; data := [None; Some [x68; x69]; None] |} in
  @ReadB64Chunk StdEncoding NewChunks "AQADAAIAaGk=" = Returned ch true None
  ∧ @ReadB64Chunk StdEncoding ch "AQADAAIAaGk=" = Returned ch false None.
Proof.
  intros ch. split; [reflexivity|].
  apply (@duplicate_frame_ignored StdEncoding).
  left. exists NewChunks, true. reflexivity.
Defined.

(** ** The envelope: header checks *)

Lemma be16_bytes (n : Z) :
  0 ≤ n < 65536 →
  Z.lor (byte_to_Z (byte_of_Z n)) (byte_to_Z (byte_of_Z (n ≫ 8)) ≪ 8) = n.
Proof. apply le16_bytes. Qed.

Lemma be32_bytes (n : Z) :
  0 ≤ n < 2 ^ 32 →
  Z.lor (Z.lor (Z.lor (byte_to_Z (byte_of_Z n))
                      (byte_to_Z (byte_of_Z (n ≫ 8)) ≪ 8))
               (byte_to_Z (byte_of_Z (n ≫ 16)) ≪ 16))
        (byte_to_Z (byte_of_Z (n ≫ 24)) ≪ 24)
  = n.
Proof.
  intros Hn. rewrite !byte_to_of_Z, !Z.shiftr_div_pow2 by lia.
  change (2 ^ 8) with 256. change (2 ^ 16) with 65536.
  change (2 ^ 24) with 16777216. change (2 ^ 32) with 4294967296 in Hn.
  rewrite (lor_shiftl_add _ _ 8)
    by (change (2 ^ 8) with 256; Z.div_mod_to_equations; lia).
  rewrite (lor_shiftl_add _ _ 16)
    by (change (2 ^ 8) with 256; change (2 ^ 16) with 65536;
        Z.div_mod_to_equations; lia).
  rewrite (lor_shiftl_add _ _ 24)
    by (change (2 ^ 8) with 256; change (2 ^ 16) with 65536;
        change (2 ^ 24) with 16777216; Z.div_mod_to_equations; lia).
  change (2 ^ 8) with 256. change (2 ^ 16) with 65536.
  change (2 ^ 24) with 16777216.
  Z.div_mod_to_equations. lia.
Qed.

Lemma read_op_header_nonneg (data : slice) (iter opCode size_ : Z) :
  read_op_header data iter = Some (opCode, size_) → 0 ≤ size_.
Proof.
  unfold read_op_header. intros Hrd.
  destruct (byte_at data (iter + 1)) as [d1|]; [|discriminate].
  destruct (byte_at data iter) as [d0|]; [|discriminate].
  destruct (byte_at data (iter + 5)) as [d5|]; [|discriminate].
  destruct (byte_at data (iter + 4)) as [d4|]; [|discriminate].
  destruct (byte_at data (iter + 3)) as [d3|]; [|discriminate].
  destruct (byte_at data (iter + 2)) as [d2|]; [|discriminate].
  cbn in Hrd. injection Hrd as _ <-.
  pose proof (byte_to_Z_range d5). pose proof (byte_to_Z_range d4).
  pose proof (byte_to_Z_range d3). pose proof (byte_to_Z_range d2).
  repeat (apply Z.lor_nonneg; split); try apply Z.shiftl_nonneg; lia.
Qed.

(** The loop of [Unmarshal] ends: every round moves [iter] forward by
    at least six bytes. *)
Lemma unmarshal_loop_total (data : slice) :
  ∀ (fuel : nat) (iter : Z) (message : Message),
    Z.max 0 (len data - iter) < Z.of_nat fuel →
    is_Some (unmarshal_loop fuel data iter message).
Proof.
  induction fuel as [|fuel IH]; intros iter message Hfuel; [lia|].
  cbn [unmarshal_loop].
  destruct (decide (iter < len data)) as [Hlt|Hge]; [|by eexists].
  destruct (read_op_header data iter) as [[opCode size_]|] eqn:Hrd;
    [|by eexists].
  apply read_op_header_nonneg in Hrd.
  destruct (reslice data _ _) as [d|]; [|by eexists].
  apply IH. unfold operationPayloadOffset. lia.
Qed.

(** [Unmarshal] gives its loop enough fuel. *)
Lemma Unmarshal_total (a : AirGap) (data : slice) :
  is_Some (Unmarshal a data).
Proof.
  unfold Unmarshal.
  destruct (decrypted a data) as [d|e|]; [|by eexists..].
  destruct (byte_at d 0) as [v|]; [|by eexists].
  destruct (reslice d 1 airGapMessagesOffset) as [id|]; [|by eexists].
  destruct (decide _); [by eexists|].
  destruct (decide _); [by eexists|].
  destruct (negb _); [by eexists|].
  destruct (CreateMessage a) as [m|]; [|by eexists].
  apply unmarshal_loop_total.
  unfold len, airGapMessagesOffset, compressedPubKeySize. lia.
Qed.

(** C7 (as amended).  After the optional decryption, with the version
    byte [v] and the instance id [id] read from the front of the
    envelope, [id] being [data[1:34]] and so bounded by the capacity:
    [Unmarshal] returns the version-too-old error when [v] is below the
    configured version, the version-too-new error when it is above, and
    the instance-mismatch error when the version is equal and [id]
    differs from the configured instance id; whenever [id] differs the
    call returns an error; and a message is returned only when both are
    equal. *)
Theorem Unmarshal_version_and_instance (a : AirGap) (data d : slice)
    (v : byte) (id : list byte) :
  decrypted a data = Ok d →
  byte_at d 0 = Some v →
  reslice d 1 airGapMessagesOffset = Some id →
  (byte_to_Z v < version a →
     Unmarshal a data
     = Some (Err "go-airgap message version less than supported"))
  ∧ (byte_to_Z v > version a →
     Unmarshal a data
     = Some (Err "go-airgap message version greater than supported"))
  ∧ (byte_to_Z v = version a →
     id ≠ default [] (instanceId a) →
     Unmarshal a data
     = Some (Err "go-airgap message has incorrect instance"))
  ∧ (id ≠ default [] (instanceId a) →
     ∃ e : string, Unmarshal a data = Some (Err e))
  ∧ (∀ m : Message,
       Unmarshal a data = Some (Ok m) →
       byte_to_Z v = version a ∧ id = default [] (instanceId a)).
Proof.
  intros Hdec Hv Hid. unfold Unmarshal. rewrite Hdec, Hv, Hid.
  unfold bytes_Equal.
  split; [|split; [|split; [|split]]].
  - intros Hlt. rewrite decide_True by lia. reflexivity.
  - intros Hgt. rewrite decide_False by lia.
    rewrite decide_True by lia. reflexivity.
  - intros Heq Hne. rewrite !decide_False by lia.
    rewrite bool_decide_eq_false_2 by congruence. reflexivity.
  - intros Hne.
    destruct (decide _); [by eexists|].
    destruct (decide _); [by eexists|].
    rewrite bool_decide_eq_false_2 by congruence. by eexists.
  - intros m.
    destruct (decide _); [discriminate|].
    destruct (decide _); [discriminate|].
    destruct (bool_decide_reflect (default [] (instanceId a) = id)) as [Heq|Hne];
      [|discriminate].
    intros _. split; [lia|congruence].
Qed.

(** C10 (as amended).  [Unmarshal] reads [data[0]] and [data[1:34]]
    before any check.  On an input, after the optional decryption, that
    is empty or whose capacity is below 34 bytes, these accesses panic
    and no error value is returned.  On an input of 1 to 33 bytes whose
    capacity is at least 34, both accesses are in range: the instance id
    read is the rest of the input followed by bytes of the spare
    capacity, and the call goes on to its checks, the version first and
    the instance id next; when both pass, a message without operations
    is returned. *)
Theorem Unmarshal_short_input_panics (a : AirGap) (data d : slice) :
  decrypted a data = Ok d →
  (len d = 0 ∨ cap d < 34 → Unmarshal a data = Some Panic)
  ∧ (0 < len d < 34 →
     34 ≤ cap d →
     ∃ (v : byte) (id : list byte),
       elems d !! 0%nat = Some v
       ∧ id = drop 1 (elems d) ++ take (Z.to_nat (34 - len d)) (spare d)
       ∧ length id = 33%nat
       ∧ Unmarshal a data
         = if decide (byte_to_Z v < version a) then
             Some (Err "go-airgap message version less than supported")
           else if decide (byte_to_Z v > version a) then
             Some (Err "go-airgap message version greater than supported")
           else if decide (id = default [] (instanceId a)) then
             Some (Ok {| Version := version a; InstanceId := instanceId a;
                         Payload := []; m_chunkSize := chunkSize a;
                         m_e := encryptor <$> ed a |})
           else
             Some (Err "go-airgap message has incorrect instance")).
Proof.
  intros Hdec. split.
  - intros Hshort. unfold Unmarshal. rewrite Hdec.
    destruct (byte_at d 0) as [v|] eqn:Hv.
    + destruct Hshort as [Hlen|Hcap].
      * rewrite byte_at_ge in Hv by lia. discriminate Hv.
      * unfold reslice, airGapMessagesOffset, compressedPubKeySize.
        rewrite decide_False by lia. reflexivity.
    + reflexivity.
  - intros Hlen Hcap. unfold len, cap in Hlen, Hcap.
    destruct (elems d) as [|v rest] eqn:Helems; [simpl in Hlen; lia|].
    simpl in Hlen, Hcap.
    set (id := rest ++ take (Z.to_nat (34 - len d)) (spare d)).
    assert (length id = 33%nat) as Hid.
    { unfold id, len. rewrite Helems, length_app, length_take. simpl. lia. }
    assert (reslice d 1 airGapMessagesOffset = Some id) as Hre.
    { unfold reslice, airGapMessagesOffset, compressedPubKeySize, cap.
      rewrite Helems. rewrite decide_True by (simpl; lia).
      change (Z.to_nat 1) with 1%nat. cbn [app drop].
      change (Z.to_nat (1 + 33 - 1)) with 33%nat.
      rewrite drop_0, take_app_ge by lia. unfold id, len. rewrite Helems.
      do 3 f_equal. simpl. lia. }
    exists v, id. split; [reflexivity|]. split; [reflexivity|].
    split; [exact Hid|].
    unfold Unmarshal. rewrite Hdec. unfold byte_at.
    rewrite decide_True by lia. rewrite Helems.
    change ((v :: rest) !! Z.to_nat 0) with (Some v).
    rewrite <- Helems, Hre.
    destruct (decide (byte_to_Z v < version a)) as [Hlt|Hnlt].
    { rewrite decide_True by lia. reflexivity. }
    rewrite decide_False by lia.
    destruct (decide (byte_to_Z v > version a)) as [Hgt|Hngt].
    { rewrite decide_True by lia. reflexivity. }
    rewrite decide_False by lia. unfold bytes_Equal.
    destruct (decide (id = default [] (instanceId a))) as [Heq|Hne].
    + rewrite bool_decide_eq_true_2 by (symmetry; exact Heq).
      cbn [negb]. unfold CreateMessage.
      destruct (instanceId a) as [id'|] eqn:Hinst.
      * cbn [unmarshal_loop]. rewrite decide_False; [reflexivity|].
        unfold airGapMessagesOffset, compressedPubKeySize, len.
        rewrite Helems. simpl. lia.
      * cbn [default] in Heq. rewrite Heq in Hid. discriminate Hid.
    + rewrite bool_decide_eq_false_2 by congruence. reflexivity.
Qed.

(** ** The envelope: operation records *)

Lemma byte_at_app (pre l sp : list byte) (i : Z) (k : nat) :
  i = Z.of_nat (length pre) + Z.of_nat k →
  byte_at (Slice (pre ++ l) sp) i = l !! k.
Proof.
  intros ->. unfold byte_at. cbn [elems]. rewrite decide_True by lia.
  rewrite lookup_app_r by lia. f_equal. lia.
Qed.

(** One round of the loop on a record header followed by [rest]: with
    the declared size within the capacity the operation is appended,
    its data taken from [rest] and then from the spare bytes; beyond
    the capacity the slice expression panics. *)
Lemma unmarshal_loop_round (fuel : nat) (pre rest sp : list byte)
    (opCode size_ : Z) (message : Message) :
  0 ≤ opCode < 2 ^ 16 →
  0 ≤ size_ < 2 ^ 32 →
  let data := Slice (pre ++ op_header opCode size_ ++ rest) sp in
  unmarshal_loop (S fuel) data (Z.of_nat (length pre)) message
  = if decide (size_ ≤ Z.of_nat (length rest + length sp)) then
      unmarshal_loop fuel data (Z.of_nat (length pre) + (6 + size_))
        (AddOperation message opCode (take (Z.to_nat size_) (rest ++ sp)))
    else Some Panic.
Proof.
  intros Hc Hs data. cbn [unmarshal_loop].
  rewrite decide_True
    by (unfold len, data; cbn [elems]; rewrite !length_app; simpl; lia).
  assert (read_op_header data (Z.of_nat (length pre)) = Some (opCode, size_))
    as ->.
  { unfold read_op_header, data.
    rewrite (byte_at_app pre _ sp (Z.of_nat (length pre) + 1) 1) by lia.
    rewrite (byte_at_app pre _ sp (Z.of_nat (length pre)) 0) by lia.
    rewrite (byte_at_app pre _ sp (Z.of_nat (length pre) + 5) 5) by lia.
    rewrite (byte_at_app pre _ sp (Z.of_nat (length pre) + 4) 4) by lia.
    rewrite (byte_at_app pre _ sp (Z.of_nat (length pre) + 3) 3) by lia.
    rewrite (byte_at_app pre _ sp (Z.of_nat (length pre) + 2) 2) by lia.
    cbn [op_header app lookup list_lookup mbind option_bind].
    rewrite be16_bytes by (change (2 ^ 16) with 65536 in Hc; lia).
    rewrite be32_bytes by lia. reflexivity. }
  unfold reslice, cap, operationPayloadOffset.
  change (elems data) with (pre ++ op_header opCode size_ ++ rest).
  change (spare data) with sp.
  rewrite !length_app. cbn [op_header length].
  destruct (decide (size_ ≤ Z.of_nat (length rest + length sp))) as [Hin|Hout].
  - rewrite decide_True by lia. do 3 f_equal.
    replace (Z.to_nat (Z.of_nat (length pre) + (6 + size_)
                       - (Z.of_nat (length pre) + 6)))
      with (Z.to_nat size_) by lia.
    f_equal.
    replace (Z.to_nat (Z.of_nat (length pre) + 6))
      with (length (pre ++ op_header opCode size_))
      by (rewrite length_app; simpl; lia).
    rewrite <- !app_assoc, (app_assoc pre), drop_app_length. reflexivity.
  - rewrite decide_False by lia. reflexivity.
Qed.

Lemma length_op_record (op : Z * list byte) :
  length (op_record op) = (6 + length op.2)%nat.
Proof. unfold op_record. rewrite length_app. reflexivity. Qed.

Lemma length_concat_op_records (ops : list (Z * list byte)) :
  (length ops ≤ length (concat (op_record <$> ops)))%nat.
Proof.
  induction ops as [|op ops IH]; [done|].
  rewrite fmap_cons. cbn [concat]. rewrite length_app, length_op_record.
  simpl. lia.
Qed.

(** The loop on well-formed records: one operation per record, in
    order; it then stands at the first byte after them. *)
Lemma unmarshal_loop_records (sp tail : list byte) :
  ∀ (ops : list (Z * list byte)) (fuel : nat) (pre : list byte)
    (message : Message),
    Forall op_fits ops →
    unmarshal_loop (length ops + fuel)
      (Slice (pre ++ concat (op_record <$> ops) ++ tail) sp)
      (Z.of_nat (length pre)) message
    = unmarshal_loop fuel
        (Slice (pre ++ concat (op_record <$> ops) ++ tail) sp)
        (Z.of_nat (length (pre ++ concat (op_record <$> ops))))
        (add_operations message ops).
Proof.
  induction ops as [|[c d] ops IH]; intros fuel pre message Hops.
  - cbn. rewrite app_nil_r. reflexivity.
  - apply Forall_cons in Hops as [[Hc Hd] Hops]. cbn [fst snd] in Hc, Hd.
    rewrite fmap_cons. cbn [concat length Nat.add].
    unfold op_record at 1 3 5. cbn [fst snd].
    rewrite <- !app_assoc.
    pose proof (unmarshal_loop_round (length ops + fuel) pre
                  (d ++ concat (op_record <$> ops) ++ tail) sp c
                  (Z.of_nat (length d)) message Hc ltac:(lia)) as Hround.
    cbv zeta in Hround. rewrite Hround. clear Hround.
    rewrite decide_True by (rewrite !length_app; lia).
    rewrite Nat2Z.id, <- app_assoc, take_app_length.
    specialize (IH fuel (pre ++ op_header c (Z.of_nat (length d)) ++ d)
                  (AddOperation message c d) Hops).
    rewrite <- !app_assoc in IH.
    replace (Z.of_nat (length pre) + (6 + Z.of_nat (length d)))
      with (Z.of_nat (length (pre ++ op_header c (Z.of_nat (length d)) ++ d)))
      by (rewrite !length_app; simpl; lia).
    rewrite IH. reflexivity.
Qed.

Lemma Payload_add_operations (ops : list (Z * list byte)) :
  ∀ m : Message,
    Forall op_fits ops →
    Payload (add_operations m ops) = Payload m ++ (payload_of <$> ops).
Proof.
  induction ops as [|[c d] ops IH]; intros m Hops.
  - cbn. rewrite app_nil_r. reflexivity.
  - apply Forall_cons in Hops as [[Hc Hd] Hops]. cbn [fst snd] in Hc, Hd.
    cbn [add_operations foldl]. fold (add_operations (AddOperation m c d) ops).
    rewrite IH by exact Hops. cbn [AddOperation Payload fst snd].
    rewrite <- app_assoc. do 2 f_equal.
    unfold payload_of, uint32. cbn [fst snd].
    rewrite Z.mod_small by lia. reflexivity.
Qed.

Lemma add_operations_fields (ops : list (Z * list byte)) :
  ∀ m : Message,
    Version (add_operations m ops) = Version m
    ∧ InstanceId (add_operations m ops) = InstanceId m
    ∧ m_chunkSize (add_operations m ops) = m_chunkSize m
    ∧ m_e (add_operations m ops) = m_e m.
Proof.
  induction ops as [|op ops IH]; intros m; [done|].
  cbn [add_operations foldl]. fold (add_operations (AddOperation m op.1 op.2) ops).
  destruct (IH (AddOperation m op.1 op.2)) as (-> & -> & -> & ->). done.
Qed.

(** The record [Marshal] builds for an operation that fits. *)
Lemma marshal_payload_spec (op : Z * list byte) :
  op_fits op → marshal_payload (payload_of op) = Some (op_record op).
Proof.
  intros [Hc Hd]. unfold marshal_payload, payload_of.
  cbn [OpCode Size OpData].
  unfold uint32, operationPayloadOffset. rewrite Z.mod_small by lia.
  unfold make.
  replace (Z.to_nat (6 + Z.of_nat (length op.2)))
    with (6 + length op.2)%nat by lia.
  rewrite replicate_add. cbn [replicate app].
  repeat (rewrite store_Some by (simpl; lia); cbn [mbind option_bind]).
  cbn [insert list_insert firstn skipn app].
  unfold op_record, op_header. cbn [app]. do 7 f_equal.
  rewrite take_0, drop_0. cbn [app].
  unfold copy. rewrite length_replicate, firstn_all.
  rewrite drop_ge by (rewrite length_replicate; lia).
  apply app_nil_r.
Qed.

(** The size field is 32 bits wide and the buffer of a record is
    allocated with [6 + Size] computed in 32 bits: for the six largest
    sizes the buffer is shorter than the header and a header store
    panics. *)
Lemma marshal_payload_overflow (op : OpPayload) :
  2 ^ 32 - 6 ≤ Size op < 2 ^ 32 → marshal_payload op = None.
Proof.
  intros Hs. unfold marshal_payload, uint32, operationPayloadOffset.
  replace ((6 + Size op) mod 2 ^ 32) with (6 + Size op - 2 ^ 32)
    by (apply Z.mod_unique with (q := 1); lia).
  set (n := 6 + Size op - 2 ^ 32).
  assert (0 ≤ n < 6) as Hn by (unfold n; lia).
  assert (n = 0 ∨ n = 1 ∨ n = 2 ∨ n = 3 ∨ n = 4 ∨ n = 5) as Hcases by lia.
  destruct Hcases as [->|[->|[->|[->|[->| ->]]]]]; reflexivity.
Qed.

Lemma mapM_fmap_pointwise {A B C : Type} (f : B → option C) (g : A → B)
    (h : A → C) (l : list A) :
  Forall (λ x, f (g x) = Some (h x)) l → mapM f (g <$> l) = Some (h <$> l).
Proof.
  induction 1 as [|x l Hx _ IH]; [reflexivity|].
  rewrite !fmap_cons. cbn [mapM]. rewrite Hx. cbn [mbind option_bind].
  rewrite IH. reflexivity.
Qed.

Lemma Marshal_spec (a : AirGap) (m : Message) (ops : list (Z * list byte)) :
  CreateMessage a = Some m →
  Forall op_fits ops →
  Marshal (add_operations m ops)
  = match ed a with
    | Some ed => Encrypt ed (envelope a ops)
    | None => Ok (envelope a ops)
    end.
Proof.
  intros Hm Hops. unfold CreateMessage in Hm.
  destruct (instanceId a) as [id|] eqn:Hid; [|discriminate].
  injection Hm as <-. unfold Marshal.
  destruct (add_operations_fields ops
              {| Version := version a; InstanceId := Some id; Payload := [];
                 m_chunkSize := chunkSize a; m_e := encryptor <$> ed a |})
    as (-> & -> & _ & ->).
  rewrite Payload_add_operations by exact Hops. cbn [Payload app].
  rewrite (mapM_fmap_pointwise marshal_payload payload_of op_record ops)
    by (eapply Forall_impl; [exact Hops|]; intros op Hop;
        by apply marshal_payload_spec).
  unfold envelope. rewrite Hid. cbn [Version InstanceId m_e default app].
  destruct (ed a) as [e|]; reflexivity.
Qed.

(** [Marshal] panics as soon as one record cannot be built. *)
Lemma Marshal_overflow (m : Message) (opCode : Z) (d : list byte) :
  2 ^ 32 - 6 ≤ Z.of_nat (length d) < 2 ^ 32 →
  Marshal (AddOperation m opCode d) = Panic.
Proof.
  intros Hd. unfold Marshal.
  rewrite (proj2 (mapM_None _ _)); [reflexivity|].
  cbn [AddOperation Payload]. apply Exists_app. right. apply Exists_cons_hd.
  apply marshal_payload_overflow. cbn [Size].
  unfold uint32. rewrite Z.mod_small by lia. exact Hd.
Qed.

(** ** The envelope: round trip and truncated records *)

Lemma NewAirGap_spec (v : Z) (id : option (list byte)) (a : AirGap) :
  NewAirGap v id = Some a →
  ∃ id' : list byte,
    id = Some id' ∧ length id' = 33%nat
    ∧ a = {| version := v; instanceId := Some id';
             chunkSize := defaultChunkSize; ed := None |}.
Proof.
  unfold NewAirGap. destruct id as [id'|]; [|discriminate].
  unfold compressedPubKeySize.
  destruct (decide _) as [Hne|Heq]; [discriminate|].
  intros [= <-]. exists id'. repeat split. lia.
Qed.

(** [Unmarshal] on an envelope followed by further bytes [tail]: the
    header checks pass, the loop takes the operations of the envelope
    and stands at the first byte of [tail], with fuel left. *)
Lemma Unmarshal_envelope (a : AirGap) (data : slice) (id tail sp : list byte)
    (ops : list (Z * list byte)) :
  decrypted a data = Ok (Slice (envelope a ops ++ tail) sp) →
  instanceId a = Some id →
  length id = 33%nat →
  0 ≤ version a < 256 →
  Forall op_fits ops →
  ∃ (fuel : nat) (m : Message),
    (length tail < fuel)%nat
    ∧ CreateMessage a = Some m
    ∧ Unmarshal a data
      = unmarshal_loop fuel (Slice (envelope a ops ++ tail) sp)
          (Z.of_nat (length (envelope a ops))) (add_operations m ops).
Proof.
  intros Hdec Hid Hlen Hv Hops.
  set (pre := byte_of_Z (version a) :: id).
  assert (envelope a ops = pre ++ concat (op_record <$> ops)) as Henv.
  { unfold envelope. rewrite Hid. reflexivity. }
  assert (length pre = 34%nat) as Hpre by (unfold pre; simpl; lia).
  unfold Unmarshal. rewrite Hdec. rewrite Henv, <- app_assoc.
  set (d := Slice (pre ++ concat (op_record <$> ops) ++ tail) sp).
  assert (byte_at d 0 = Some (byte_of_Z (version a))) as -> by reflexivity.
  assert (reslice d 1 airGapMessagesOffset = Some id) as ->.
  { unfold reslice, cap, airGapMessagesOffset, compressedPubKeySize, d.
    cbn [elems spare]. rewrite decide_True by (rewrite !length_app; lia).
    f_equal. unfold pre. cbn [app]. change (Z.to_nat 1) with 1%nat.
    cbn [drop skipn]. rewrite <- !app_assoc.
    replace (Z.to_nat (1 + 33 - 1)) with (length id) by lia.
    apply take_app_length. }
  rewrite byte_to_of_Z, Z.mod_small by lia.
  rewrite !decide_False by lia.
  unfold bytes_Equal. rewrite Hid. cbn [default].
  rewrite bool_decide_eq_true_2 by reflexivity. cbn [negb].
  unfold CreateMessage. rewrite Hid.
  pose proof (length_concat_op_records ops) as Hrec.
  assert (∃ F : nat, S (length (elems d)) = (length ops + F)%nat
                     ∧ (length tail < F)%nat) as (F & HF & Htail).
  { exists (S (length (elems d)) - length ops)%nat.
    unfold d. cbn [elems]. rewrite !length_app. lia. }
  rewrite HF. exists F. eexists.
  split; [exact Htail|]. split; [reflexivity|].
  unfold airGapMessagesOffset, compressedPubKeySize.
  replace (1 + 33) with (Z.of_nat (length pre)) by lia.
  unfold d. rewrite unmarshal_loop_records by exact Hops. reflexivity.
Qed.

(** X23.  For a context with an instance id of 33 bytes and every
    list of operations whose data are at most [2^32 - 7] bytes long:
    [Marshal] of the message built by [AddOperation] is the
    envelope, encrypted when a capability is bound; and whenever that is
    a result [out] (always, without encryption), [Unmarshal] of [out]
    under the same context, the capability's [Decrypt] inverting its
    [Encrypt], returns a message whose operations are the input list,
    with the same op codes, sizes and data, in the same order. *)
Theorem envelope_roundtrip (a : AirGap) (m : Message) (id : list byte)
    (ops : list (Z * list byte)) :
  instanceId a = Some id →
  length id = 33%nat →
  0 ≤ version a < 256 →
  (∀ e : EncryptorDecryptor, ed a = Some e → decrypt_inverts_encrypt e) →
  CreateMessage a = Some m →
  Forall op_fits ops →
  Marshal (add_operations m ops)
  = match ed a with
    | Some e => Encrypt e (envelope a ops)
    | None => Ok (envelope a ops)
    end
  ∧ ∀ out sp : list byte,
      Marshal (add_operations m ops) = Ok out →
      ∃ m' : Message,
        Unmarshal a (Slice out sp) = Some (Ok m')
        ∧ Payload m' = payload_of <$> ops
        ∧ Version m' = version a
        ∧ InstanceId m' = instanceId a.
Proof.
  intros Hid Hlen Hv Hed Hm Hops.
  pose proof (Marshal_spec a m ops Hm Hops) as Hmarshal.
  split; [exact Hmarshal|]. intros out sp Hout. rewrite Hout in Hmarshal.
  assert (∃ sp', decrypted a (Slice out sp)
                 = Ok (Slice (envelope a ops ++ []) sp')) as [sp' Hdec].
  { unfold decrypted. cbn [elems]. rewrite app_nil_r.
    destruct (ed a) as [e|] eqn:He.
    - destruct (Hed e eq_refl (envelope a ops) out) as [sp' Hsp'];
        [by symmetry|]. exists sp'. exact Hsp'.
    - exists sp. by injection Hmarshal as ->. }
  destruct (Unmarshal_envelope a (Slice out sp) id [] sp' ops
              Hdec Hid Hlen Hv Hops) as (fuel & m0 & Hfuel & Hm0 & Hrun).
  rewrite Hm in Hm0. injection Hm0 as <-.
  rewrite Hrun. destruct fuel as [|fuel]; [simpl in Hfuel; lia|].
  cbn [unmarshal_loop].
  rewrite decide_False
    by (unfold len; cbn [elems]; rewrite app_nil_r; lia).
  eexists. split; [reflexivity|].
  destruct (add_operations_fields ops m) as (-> & -> & _).
  rewrite Payload_add_operations by exact Hops.
  unfold CreateMessage in Hm. rewrite Hid in Hm. injection Hm as <-.
  cbn [Payload Version InstanceId app]. rewrite Hid. done.
Qed.

(** C9 (as amended).  An envelope whose last record declares [size_]
    bytes of data and is followed by fewer: [Unmarshal] returns no
    error.  When the declared size reaches beyond the capacity of the
    slice, the slice expression panics; when it stays within, the
    missing bytes are taken from the spare capacity and the message is
    returned. *)
Theorem truncated_operation (a : AirGap) (data : slice)
    (id rest sp : list byte) (ops : list (Z * list byte))
    (opCode size_ : Z) :
  decrypted a data
  = Ok (Slice (envelope a ops ++ op_header opCode size_ ++ rest) sp) →
  instanceId a = Some id →
  length id = 33%nat →
  0 ≤ version a < 256 →
  Forall op_fits ops →
  0 ≤ opCode < 2 ^ 16 →
  Z.of_nat (length rest) < size_ < 2 ^ 32 →
  (Z.of_nat (length rest + length sp) < size_ →
     Unmarshal a data = Some Panic)
  ∧ (size_ ≤ Z.of_nat (length rest + length sp) →
     ∃ m' : Message,
       Unmarshal a data = Some (Ok m')
       ∧ Payload m'
         = (payload_of <$> ops)
           ++ [{| OpCode := opCode; Size := size_;
                  OpData := rest ++ take (Z.to_nat size_ - length rest) sp |}]).
Proof.
  intros Hdec Hid Hlen Hv Hops Hc Hs.
  destruct (Unmarshal_envelope a data id (op_header opCode size_ ++ rest) sp
              ops Hdec Hid Hlen Hv Hops) as (fuel & m & Hfuel & Hm & Hrun).
  rewrite Hrun. rewrite length_app in Hfuel. cbn [op_header length] in Hfuel.
  destruct fuel as [|[|fuel]]; [lia|lia|].
  split.
  - intros Hout.
    rewrite (unmarshal_loop_round (S fuel) (envelope a ops) rest sp opCode
               size_ (add_operations m ops)) by lia.
    rewrite decide_False by lia. reflexivity.
  - intros Hin.
    rewrite (unmarshal_loop_round (S fuel) (envelope a ops) rest sp opCode
               size_ (add_operations m ops)) by lia.
    rewrite decide_True by lia. cbn [unmarshal_loop].
    rewrite decide_False
      by (unfold len; cbn [elems]; rewrite !length_app; simpl; lia).
    eexists. split; [reflexivity|].
    cbn [AddOperation Payload]. rewrite Payload_add_operations by exact Hops.
    unfold CreateMessage in Hm. rewrite Hid in Hm. injection Hm as <-.
    cbn [Payload app]. do 2 f_equal.
    rewrite take_app, take_ge by lia.
    f_equal. unfold uint32.
    rewrite length_app, length_take, Z.mod_small by lia. lia.
Qed.

(** ** The envelope on concrete inputs *)

Lemma example_airgap_new : NewAirGap 1 (Some example_id) = Some example_airgap.
Proof. reflexivity. Qed.

(** C7, witness: version bytes 0 and 2 against version 1, and an
    instance id of 33 bytes [03] against one of 33 bytes [02]. *)
Lemma Unmarshal_version_and_instance_witness :
  Unmarshal example_airgap (Slice (x00 :: example_id) [])
  = Some (Err "go-airgap message version less than supported")
  ∧ Unmarshal example_airgap (Slice (x02 :: example_id) [])
    = Some (Err "go-airgap message version greater than supported")
  ∧ Unmarshal example_airgap (Slice (x01 :: replicate 33 x03) [])
    = Some (Err "go-airgap message has incorrect instance").
Proof.
  split; [|split].
  - apply (Unmarshal_version_and_instance example_airgap
             (Slice (x00 :: example_id) []) (Slice (x00 :: example_id) [])
             x00 example_id); [reflexivity..|].
    vm_compute. reflexivity.
  - apply (Unmarshal_version_and_instance example_airgap
             (Slice (x02 :: example_id) []) (Slice (x02 :: example_id) [])
             x02 example_id); [reflexivity..|].
    vm_compute. reflexivity.
  - apply (Unmarshal_version_and_instance example_airgap
             (Slice (x01 :: replicate 33 x03) [])
             (Slice (x01 :: replicate 33 x03) [])
             x01 (replicate 33 x03)); [reflexivity..| |].
    + reflexivity.
    + vm_compute. discriminate.
Defined.

(** C7, counterexample: version byte 0 and an instance id of 33 bytes
    [03], against version 1 and an instance id of 33 bytes [02].  The
    instance id differs, and the error returned is that of the version,
    which is checked first, not that of the instance. *)
Lemma wrong_version_hides_instance_mismatch :
  replicate 33 x03 ≠ example_id
  ∧ Unmarshal example_airgap (Slice (x00 :: replicate 33 x03) [])
    = Some (Err "go-airgap message version less than supported")
  ∧ Unmarshal example_airgap (Slice (x00 :: replicate 33 x03) [])
    ≠ Some (Err "go-airgap message has incorrect instance").
Proof.
  split; [vm_compute; discriminate|].
  split; [reflexivity|]. vm_compute. discriminate.
Qed.

(** X23, witness: the three operations of the specification, without
    encryption and with the XOR mask [5a]. *)
Lemma envelope_roundtrip_witness :
  (∃ m' : Message,
     Unmarshal example_airgap (Slice (envelope example_airgap example_ops) [])
     = Some (Ok m')
     ∧ Payload m' = payload_of <$> example_ops)
  ∧ ∃ (m : Message) (out : list byte) (m' : Message),
      let a := SetEncryptorDecryptor example_airgap (Some (XorCipher x5a)) in
      CreateMessage a = Some m
      ∧ Marshal (add_operations m example_ops) = Ok out
      ∧ out ≠ envelope a example_ops
      ∧ Unmarshal a (Slice out []) = Some (Ok m')
      ∧ Payload m' = payload_of <$> example_ops.
Proof.
  assert (Forall op_fits example_ops) as Hops.
  { repeat constructor; simpl; lia. }
  split.
  - destruct (envelope_roundtrip example_airgap
                {| Version := 1; InstanceId := Some example_id; Payload := [];
                   m_chunkSize := 192; m_e := None |}
                example_id example_ops)
      as [Hmarshal Hround];
      [reflexivity | reflexivity | unfold example_airgap, VersionDefault; simpl; lia
      | discriminate | reflexivity
      | exact Hops |].
    destruct (Hround (envelope example_airgap example_ops) [] Hmarshal)
      as (m' & Hrun & Hpayload & _).
    exists m'. split; [exact Hrun | exact Hpayload].
  - set (a := SetEncryptorDecryptor example_airgap (Some (XorCipher x5a))).
    destruct (envelope_roundtrip a
                {| Version := 1; InstanceId := Some example_id; Payload := [];
                   m_chunkSize := 192;
                   m_e := Some (encryptor (XorCipher x5a)) |}
                example_id example_ops)
      as [Hmarshal Hround];
      [reflexivity | reflexivity
      | unfold a, example_airgap, VersionDefault; simpl; lia
      | intros e [= <-]; apply XorCipher_inverts | reflexivity | exact Hops |].
    destruct (Hround (xor_byte x5a <$> envelope a example_ops) [] Hmarshal)
      as (m' & Hrun & Hpayload & _).
    eexists _, _, m'. split; [reflexivity|]. split; [exact Hmarshal|].
    split; [vm_compute; discriminate|]. split; [exact Hrun | exact Hpayload].
Defined.

(** C8 (the code departs from the claim).  One operation of
    [2^32 - 1] bytes, which [AddOperation] accepts: the buffer of its
    record is allocated with [6 + Size] computed in 32 bits, which
    wraps to 5 bytes, and [Marshal] panics at the store into
    [payload[5]].  No envelope is produced, so there is nothing to
    unmarshal. *)
Lemma Marshal_panics_on_largest_operation :
  ∃ m : Message,
    CreateMessage example_airgap = Some m
    ∧ Marshal (add_operations m [(1, replicate (Z.to_nat 4294967295) x00)])
      = Panic.
Proof.
  eexists. split; [reflexivity|].
  cbn [add_operations foldl fst snd]. apply Marshal_overflow.
  rewrite length_replicate, Z2Nat.id by lia. lia.
Qed.

(** C9, witness: after one whole record, a record that declares two
    bytes and carries one; without spare capacity, and with one spare
    byte [07]. *)
Lemma truncated_operation_witness :
  Unmarshal example_airgap
    (Slice (envelope example_airgap [(1, [x61])] ++ op_header 2 2 ++ [x62]) [])
  = Some Panic
  ∧ ∃ m' : Message,
      Unmarshal example_airgap
        (Slice (envelope example_airgap [(1, [x61])] ++ op_header 2 2 ++ [x62])
               [x07])
      = Some (Ok m')
      ∧ Payload m'
        = [{| OpCode := 1; Size := 1; OpData := [x61] |};
           {| OpCode := 2; Size := 2; OpData := [x62; x07] |}].
Proof.
  assert (Forall op_fits [(1, [x61])]) as Hops.
  { repeat constructor; simpl; lia. }
  split.
  - apply (truncated_operation example_airgap _ example_id [x62] []
             [(1, [x61])] 2 2);
      [reflexivity | reflexivity | reflexivity
      | unfold example_airgap, VersionDefault; simpl; lia | exact Hops
      | lia | simpl; lia | simpl; lia].
  - apply (truncated_operation example_airgap _ example_id [x62] [x07]
             [(1, [x61])] 2 2);
      [reflexivity | reflexivity | reflexivity
      | unfold example_airgap, VersionDefault; simpl; lia | exact Hops
      | lia | simpl; lia | simpl; lia].
Defined.

(** C9, counterexample: the record declares two bytes and one is left;
    the call panics and returns no error. *)
Lemma truncated_operation_returns_no_error :
  Unmarshal example_airgap
    (Slice (x01 :: example_id ++ [x00; x01; x00; x00; x00; x02; x61]) [])
  = Some Panic
  ∧ ¬ ∃ e : string,
        Unmarshal example_airgap
          (Slice (x01 :: example_id ++ [x00; x01; x00; x00; x00; x02; x61]) [])
        = Some (Err e).
Proof.
  split; [reflexivity|]. intros [e He]. discriminate He.
Qed.

(** C10, witness: three bytes without spare capacity, and no bytes at
    all in a buffer of 64; then three bytes in a buffer of 43 whose
    spare bytes continue the instance id, and one byte in a buffer of
    34 whose spare bytes are another id. *)
Lemma Unmarshal_short_input_panics_witness :
  Unmarshal example_airgap (Slice [x01; x02; x02] []) = Some Panic
  ∧ Unmarshal example_airgap (Slice [] (replicate 64 x00)) = Some Panic
  ∧ Unmarshal example_airgap (Slice [x01; x02; x02] (replicate 40 x02))
    = Some (Ok {| Version := 1; InstanceId := Some example_id; Payload := [];
                  m_chunkSize := 192; m_e := None |})
  ∧ Unmarshal example_airgap (Slice [x01] (replicate 33 x03))
    = Some (Err "go-airgap message has incorrect instance").
Proof.
  split; [|split; [|split]].
  - apply (proj1 (Unmarshal_short_input_panics example_airgap _
                    (Slice [x01; x02; x02] []) eq_refl)).
    right. vm_compute. reflexivity.
  - apply (proj1 (Unmarshal_short_input_panics example_airgap _
                    (Slice [] (replicate 64 x00)) eq_refl)).
    left. reflexivity.
  - destruct (proj2 (Unmarshal_short_input_panics example_airgap _
                       (Slice [x01; x02; x02] (replicate 40 x02)) eq_refl))
      as (v & id & Hv & Hid & _ & Hrun).
    + vm_compute. split; reflexivity.
    + vm_compute. discriminate.
    + injection Hv as <-. rewrite Hrun, Hid. reflexivity.
  - destruct (proj2 (Unmarshal_short_input_panics example_airgap _
                       (Slice [x01] (replicate 33 x03)) eq_refl))
      as (v & id & Hv & Hid & _ & Hrun).
    + vm_compute. split; reflexivity.
    + vm_compute. discriminate.
    + injection Hv as <-. rewrite Hrun, Hid. reflexivity.
Defined.

(** C10, counterexample: inputs of one byte in a buffer of 34.  The
    header accesses are in range: one input is refused with an error
    value, the other, whose spare bytes happen to be the instance id,
    is accepted. *)
Lemma short_input_with_spare_capacity :
  len (Slice [x02] (replicate 33 x00)) = 1
  ∧ Unmarshal example_airgap (Slice [x02] (replicate 33 x00))
    = Some (Err "go-airgap message version greater than supported")
  ∧ ∃ m : Message,
      Unmarshal example_airgap (Slice [x01] example_id) = Some (Ok m).
Proof.
  split; [reflexivity|]. split; [reflexivity|]. eexists. reflexivity.
Qed.


(** * Further properties of the code *)

(** ** The chunks [SetData] cuts *)

Section windows.
Context `{!Gzip}.

(** The loop cuts the stream into consecutive windows of [p] bytes:
    the chunk it appends in round [i] is the window that starts at
    [iter + i * p]. *)
Lemma split_loop_windows (cd : list byte) (p : Z) :
  0 < p →
  ∀ (fuel : nat) (iter : Z) (acc : list (option (list byte))),
    0 ≤ iter →
    Z.max 0 (Z.of_nat (length cd) - iter) < Z.of_nat fuel →
    ∃ cs : list (list byte),
      split_loop fuel cd p iter acc = Some (acc ++ (Some <$> cs))
      ∧ Z.of_nat (length cs)
        = (Z.max 0 (Z.of_nat (length cd) - iter) + p - 1) / p
      ∧ ∀ (i : nat) (c : list byte),
          cs !! i = Some c →
          c = take (Z.to_nat p) (drop (Z.to_nat (iter + Z.of_nat i * p)) cd)
          ∧ iter + Z.of_nat i * p < Z.of_nat (length cd).
Proof.
  intros Hp. induction fuel as [|fuel IH]; intros iter acc Hiter Hfuel; [lia|].
  simpl. destruct (decide (iter < Z.of_nat (length cd))) as [Hlt|Hge].
  - set (rest := drop (Z.to_nat iter) cd).
    assert (Hrest : Z.of_nat (length rest) = Z.of_nat (length cd) - iter).
    { unfold rest. rewrite length_drop. lia. }
    set (chunk := if decide (Z.of_nat (length rest) >= p)
                  then copy (make p) (take (Z.to_nat p) rest)
                  else copy (make (Z.of_nat (length rest))) rest).
    assert (Hchunk : chunk = take (Z.to_nat p) rest).
    { unfold chunk. destruct (decide _) as [Hfull|Hshort].
      - apply copy_make_exact. rewrite length_take. lia.
      - rewrite copy_make_exact by reflexivity.
        rewrite take_ge by lia. reflexivity. }
    destruct (IH (iter + p) (acc ++ [Some chunk])) as (cs & Hrun & Hn & Hwin);
      [lia | lia |].
    exists (chunk :: cs). split; [|split].
    + rewrite Hrun, <- app_assoc. reflexivity.
    + rewrite length_cons, Nat2Z.inj_succ, Hn.
      rewrite (windows_step (Z.of_nat (length cd) - iter) p) by lia.
      replace (Z.of_nat (length cd) - (iter + p))
        with (Z.of_nat (length cd) - iter - p) by lia.
      lia.
    + intros [|i] c Hc.
      * injection Hc as <-. rewrite Z.mul_0_l, Z.add_0_r.
        split; [exact Hchunk | exact Hlt].
      * destruct (Hwin i c Hc) as [-> Hin].
        replace (iter + Z.of_nat (S i) * p) with (iter + p + Z.of_nat i * p)
          by lia.
        split; [reflexivity | exact Hin].
  - exists []. split; [|split].
    + rewrite app_nil_r. reflexivity.
    + rewrite Z.max_l by lia. rewrite Z.div_small by lia. reflexivity.
    + intros i c Hc. discriminate Hc.
Qed.

(** X1.  For a chunk size [s] from 7 to 65530, [SetData] (and
    [NewChunks(src, chunkSize)]) returns a buffer whose table holds the
    compressed stream cut into consecutive windows of [s - 6] bytes:
    slot [i] is the window starting at byte [i * (s - 6)], no slot is
    empty, there are as many slots as windows, the stored count is that
    number modulo 65536, and the stored size is [s - 6]. *)
Theorem SetData_windows (fuel : nat) (src : list byte) (s : Z) :
  7 ≤ s ≤ 65530 →
  (length (gzip_write src) < fuel)%nat →
  ∃ cs : list (list byte),
    SetData fuel src s
    = Some (Ok {| count := Z.of_nat (length cs) mod 65536;
                  size := s - 6;
                  data := Some <$> cs |})
    ∧ NewChunks_src fuel src s = SetData fuel src s
    ∧ Z.of_nat (length cs)
      = (Z.of_nat (length (gzip_write src)) + (s - 6) - 1) / (s - 6)
    ∧ ∀ (i : nat) (c : list byte),
        cs !! i = Some c →
        c = take (Z.to_nat (s - 6))
                 (drop (i * Z.to_nat (s - 6)) (gzip_write src))
        ∧ c ≠ [].
Proof.
  intros Hs Hfuel.
  destruct (split_loop_windows (gzip_write src) (s - 6)) with
    (fuel := fuel) (iter := 0) (acc := @nil (option (list byte)))
    as (cs & Hrun & Hn & Hwin); [lia | lia | lia |].
  exists cs. split; [|split; [|split]].
  - unfold SetData.
    rewrite decide_False by (unfold minChunkSize, chunkHeaderOffset; lia).
    rewrite decide_False
      by (change (1 ≪ 16 - chunkHeaderOffset) with 65530; lia).
    cbv zeta. unfold compress. change chunkHeaderOffset with 6.
    rewrite Hrun. cbn [mbind option_bind app]. rewrite length_fmap.
    unfold uint16. rewrite (Z.mod_small (s - 6)) by lia. reflexivity.
  - reflexivity.
  - rewrite Hn, Z.sub_0_r, Z.max_r by lia. reflexivity.
  - intros i c Hc. destruct (Hwin i c Hc) as [-> Hin].
    rewrite Z.add_0_l in *.
    rewrite Z2Nat.inj_mul, Nat2Z.id by lia.
    split; [reflexivity|].
    intros Hnil. apply (f_equal length) in Hnil.
    rewrite length_take, length_drop in Hnil. simpl in Hnil.
    rewrite <- (Nat2Z.id i), <- Z2Nat.inj_mul in Hnil by lia. lia.
Qed.

End windows.

(** X1, witness: the five bytes of the stream of [hi!] in windows of
    two. *)
Lemma SetData_windows_witness :
  ∃ cs : list (list byte),
    @SetData StoredGzip 6 [x68; x69; x21] 8
    = Some (Ok {| count := Z.of_nat (length cs) mod 65536;
                  size := 8 - 6;
                  data := Some <$> cs |})
    ∧ @NewChunks_src StoredGzip 6 [x68; x69; x21] 8
      = @SetData StoredGzip 6 [x68; x69; x21] 8
    ∧ Z.of_nat (length cs)
      = (Z.of_nat (length (@gzip_write StoredGzip [x68; x69; x21]))
         + (8 - 6) - 1) / (8 - 6)
    ∧ ∀ (i : nat) (c : list byte),
        cs !! i = Some c →
        c = take (Z.to_nat (8 - 6))
                 (drop (i * Z.to_nat (8 - 6))
                       (@gzip_write StoredGzip [x68; x69; x21]))
        ∧ c ≠ [].
Proof.
  apply (@SetData_windows StoredGzip 6 [x68; x69; x21] 8).
  - lia.
  - simpl. lia.
Defined.

(** ** The frames of a buffer *)

Section layout.
Context `{!Gzip, !Base64}.

(** X4.  The frame [getChunkWithHeader] builds for a slot in range, on
    a buffer whose size field is at most 65529: six header bytes, the
    index, the count and the length of the payload, each as two
    little-endian bytes, followed by exactly [size] bytes, the payload
    cut to [size] bytes and padded with zeros.  The frame is [size + 6]
    bytes long whatever the payload. *)
Theorem frame_layout (ch : Chunks) (i : nat) (slot : option (list byte)) :
  0 ≤ size ch ≤ 65529 →
  data ch !! i = Some slot →
  ∃ body : list byte,
    getChunkWithHeader ch (Z.of_nat i)
    = Some ([byte_of_Z (Z.of_nat i); byte_of_Z (Z.of_nat i ≫ 8);
             byte_of_Z (count ch); byte_of_Z (count ch ≫ 8);
             byte_of_Z (Z.of_nat (length (default [] slot)));
             byte_of_Z (Z.of_nat (length (default [] slot)) ≫ 8)] ++ body)
    ∧ body = take (Z.to_nat (size ch)) (default [] slot)
             ++ replicate (Z.to_nat (size ch) - length (default [] slot)) x00
    ∧ Z.of_nat (length body) = size ch.
Proof.
  intros Hp Hi. unfold getChunkWithHeader.
  rewrite Nat2Z.id, Hi. cbn [mbind option_bind].
  unfold uint16, chunkHeaderOffset. rewrite Z.mod_small by lia.
  unfold make.
  replace (Z.to_nat (size ch + 6)) with (6 + Z.to_nat (size ch))%nat by lia.
  rewrite replicate_add.
  cbn [replicate app].
  repeat (rewrite store_Some by (simpl; lia); cbn [mbind option_bind]).
  exists (copy (replicate (Z.to_nat (size ch)) x00) (default [] slot)).
  split; [reflexivity|]. split.
  - unfold copy. rewrite length_replicate, drop_replicate. reflexivity.
  - rewrite length_copy, length_replicate. lia.
Qed.

(** X5.  For a chunk size [s] from 7 to 65530 and a stream of at most
    65535 windows, [SerializeB64] of the buffer [SetData] returns gives
    one frame per chunk, in index order, and every frame is the base64
    text of exactly [s] bytes. *)
Theorem frames_have_chunk_size (fuel : nat) (src : list byte) (s : Z) :
  7 ≤ s ≤ 65530 →
  Z.of_nat (length (gzip_write src)) ≤ 65535 * (s - 6) →
  (length (gzip_write src) < fuel)%nat →
  ∃ (ch : Chunks) (raw : list (list byte)),
    SetData fuel src s = Some (Ok ch)
    ∧ SerializeB64 ch = Some (EncodeToString <$> raw)
    ∧ length raw = length (data ch)
    ∧ Z.of_nat (length raw) = count ch
    ∧ Forall (λ f, Z.of_nat (length f) = s) raw.
Proof.
  intros Hs Hmax Hfuel.
  destruct (SetData_spec fuel src s Hs Hfuel) as (cs & Hrun & _ & Hlen & Hn).
  assert (Z.of_nat (length cs) < 65536) as Hcount.
  { rewrite Hn. apply Z.div_lt_upper_bound; lia. }
  assert (uint16 (Z.of_nat (length cs)) = Z.of_nat (length cs)) as Hu.
  { unfold uint16. apply Z.mod_small. lia. }
  rewrite Hu in Hrun.
  exists {| count := Z.of_nat (length cs); size := s - 6; data := Some <$> cs |},
    (imap (λ i c, chunk_frame (Z.of_nat (length cs)) (s - 6) i c) cs).
  split; [exact Hrun|]. split; [|split; [|split]].
  - rewrite SerializeB64_spec by (reflexivity || lia || exact Hlen).
    rewrite fmap_imap. reflexivity.
  - cbn [data]. rewrite length_imap, length_fmap. reflexivity.
  - cbn [count]. rewrite length_imap. reflexivity.
  - apply Forall_forall. intros f Hf.
    apply elem_of_lookup_imap in Hf as (i & c & -> & Hc).
    pose proof (proj1 (Forall_lookup _ _) Hlen i c Hc) as Hci. cbn in Hci.
    unfold chunk_frame. rewrite !length_app, length_replicate. simpl. lia.
Qed.

End layout.

(** X4, witness: slot 2 of the buffer of [hi!], a payload of one byte
    in a frame of capacity two. *)
Lemma frame_layout_witness :
  ∃ body : list byte,
    @getChunkWithHeader
      {| count := 3; size := 2;
         data := [Some [x1f; x8b]; Some [x68; x69]; Some [x21]] |} 2
    = Some ([x02; x00; x03; x00; x01; x00] ++ body)
    ∧ body = [x21; x00]
    ∧ Z.of_nat (length body) = 2.
Proof.
  apply (frame_layout
           {| count := 3; size := 2;
              data := [Some [x1f; x8b]; Some [x68; x69]; Some [x21]] |}
           2 (Some [x21])).
  - simpl. lia.
  - reflexivity.
Defined.

(** X5, witness: [hi!] with chunk size 8. *)
Lemma frames_have_chunk_size_witness :
  ∃ (ch : Chunks) (raw : list (list byte)),
    @SetData StoredGzip 6 [x68; x69; x21] 8 = Some (Ok ch)
    ∧ @SerializeB64 StdEncoding ch = Some (@EncodeToString StdEncoding <$> raw)
    ∧ length raw = length (data ch)
    ∧ Z.of_nat (length raw) = count ch
    ∧ Forall (λ f, Z.of_nat (length f) = 8) raw.
Proof.
  apply (@frames_have_chunk_size StoredGzip StdEncoding 6 [x68; x69; x21] 8).
  - lia.
  - simpl. lia.
  - simpl. lia.
Defined.

(** ** The limits of the splitter *)

Section limits.
Context `{!Gzip, !Base64}.

(** X2.  Chunk size 6 is refused by neither guard of [SetData] and of
    [NewChunks(src, chunkSize)]: the payload capacity is then zero, the
    loop index never moves, and on an input whose compressed stream is
    not empty the call returns neither a buffer nor an error, however
    many iterations it is given. *)
Theorem chunk_size_6_never_returns (fuel : nat) (src : list byte) :
  gzip_write src ≠ [] →
  SetData fuel src 6 = None ∧ NewChunks_src fuel src 6 = None.
Proof.
  intros Hne.
  pose proof (SetData_chunk_size_6_diverges fuel src Hne) as Hrun.
  split; [exact Hrun|].
  change (NewChunks_src fuel src 6) with (SetData fuel src 6). exact Hrun.
Qed.

(** X3.  The count is a 16-bit field.  When the compressed stream
    fills more than 65535 chunks, [SetData] still returns a buffer
    holding every chunk, but [SerializeB64] gives only as many frames as
    the number of chunks modulo 65536: fewer frames than chunks, with no
    error. *)
Theorem frames_lost_beyond_65535_chunks
    (fuel : nat) (src : list byte) (s : Z) :
  7 ≤ s ≤ 65530 →
  65535 * (s - 6) < Z.of_nat (length (gzip_write src)) →
  (length (gzip_write src) < fuel)%nat →
  ∃ (ch : Chunks) (frames : list string),
    SetData fuel src s = Some (Ok ch)
    ∧ SerializeB64 ch = Some frames
    ∧ Z.of_nat (length frames) = Z.of_nat (length (data ch)) mod 65536
    ∧ (length frames < length (data ch))%nat.
Proof.
  intros Hs Hmany Hfuel.
  destruct (SetData_spec fuel src s Hs Hfuel) as (cs & Hrun & _ & Hlen & Hn).
  assert (65536 ≤ Z.of_nat (length cs)) as Hbig.
  { rewrite Hn. apply Z.div_le_lower_bound; lia. }
  set (m := Z.of_nat (length cs) mod 65536).
  assert (0 ≤ m < 65536) as Hm by (apply Z.mod_pos_bound; lia).
  change (uint16 (Z.of_nat (length cs))) with m in Hrun.
  exists {| count := m; size := s - 6; data := Some <$> cs |},
    (imap (λ i c, EncodeToString (chunk_frame m (s - 6) i c))
          (take (Z.to_nat m) cs)).
  split; [exact Hrun|]. split; [|split].
  - unfold SerializeB64. apply mapM_Some.
    apply Forall2_same_length_lookup. split.
    + rewrite length_seqZ, length_imap, length_take. cbn [count]. lia.
    + intros i z f Hz Hf. cbn [count] in Hz.
      apply lookup_seqZ in Hz as [-> Hlt].
      apply list_lookup_imap_Some in Hf as (c & Hc & ->).
      apply lookup_take_Some in Hc as [Hc _].
      rewrite Z.add_0_l.
      rewrite (getChunkWithHeader_spec _ i c); cbn [size data count].
      * reflexivity.
      * lia.
      * rewrite list_lookup_fmap, Hc. reflexivity.
      * exact (proj1 (Forall_lookup _ _) Hlen i c Hc).
  - rewrite length_imap, length_take. cbn [data]. rewrite length_fmap.
    fold m. lia.
  - rewrite length_imap, length_take. cbn [data]. rewrite length_fmap. lia.
Qed.

(** X22.  On the sending side, for a chunk size from 7 to 65530 and a
    stream of at most 65535 chunks, [Data] of the buffer [SetData]
    returns is the input of [SetData], and [Count] is the number of
    chunks the buffer holds. *)
Theorem Data_of_SetData (fuel : nat) (src : list byte) (s : Z) :
  GzipLaws →
  7 ≤ s ≤ 65530 →
  Z.of_nat (length (gzip_write src)) ≤ 65535 * (s - 6) →
  (length (gzip_write src) < fuel)%nat →
  ∃ ch : Chunks,
    SetData fuel src s = Some (Ok ch)
    ∧ Data ch = Some src
    ∧ Count ch = Z.of_nat (length (data ch)).
Proof.
  intros Hgz Hs Hmax Hfuel.
  destruct (SetData_spec fuel src s Hs Hfuel) as (cs & Hrun & Hcat & _ & Hn).
  assert (Z.of_nat (length cs) < 65536) as Hcount.
  { rewrite Hn. apply Z.div_lt_upper_bound; lia. }
  assert (uint16 (Z.of_nat (length cs)) = Z.of_nat (length cs)) as Hu.
  { unfold uint16. apply Z.mod_small. lia. }
  rewrite Hu in Hrun.
  eexists. split; [exact Hrun|]. split.
  - rewrite Data_complete by reflexivity.
    rewrite Hcat. unfold uncompress. rewrite readall_write. reflexivity.
  - unfold Count. cbn [count data]. rewrite length_fmap. reflexivity.
Qed.

End limits.

(** X2, witness: chunk size 6 on [hi!], whose stream is not empty. *)
Lemma chunk_size_6_never_returns_witness :
  @SetData StoredGzip 1000 [x68; x69; x21] 6 = None
  ∧ @NewChunks_src StoredGzip 1000 [x68; x69; x21] 6 = None.
Proof.
  apply (@chunk_size_6_never_returns StoredGzip 1000 [x68; x69; x21]).
  discriminate.
Defined.

(** X3, witness: a stream of 65536 bytes in chunks of one byte. *)
Lemma frames_lost_beyond_65535_chunks_witness :
  ∃ (ch : Chunks) (frames : list string),
    @SetData StoredGzip (Z.to_nat 65537) (replicate (Z.to_nat 65534) x00) 7
    = Some (Ok ch)
    ∧ @SerializeB64 StdEncoding ch = Some frames
    ∧ Z.of_nat (length frames) = Z.of_nat (length (data ch)) mod 65536
    ∧ (length frames < length (data ch))%nat.
Proof.
  assert (length (@gzip_write StoredGzip (replicate (Z.to_nat 65534) x00))
          = Z.to_nat 65536) as Hlen.
  { cbn [gzip_write StoredGzip]. rewrite length_app, length_replicate.
    unfold gzip_magic. cbn [length]. lia. }
  apply (@frames_lost_beyond_65535_chunks StoredGzip StdEncoding
           (Z.to_nat 65537) (replicate (Z.to_nat 65534) x00) 7);
    [lia | rewrite Hlen; lia | rewrite Hlen; lia].
Defined.

(** X22, witness: [hi!] with chunk size 8. *)
Lemma Data_of_SetData_witness :
  ∃ ch : Chunks,
    @SetData StoredGzip 6 [x68; x69; x21] 8 = Some (Ok ch)
    ∧ @Data StoredGzip ch = Some [x68; x69; x21]
    ∧ Count ch = Z.of_nat (length (data ch)).
Proof.
  apply (@Data_of_SetData StoredGzip 6 [x68; x69; x21] 8).
  - exact StoredGzip_laws.
  - lia.
  - simpl. lia.
  - simpl. lia.
Defined.


(** ** What a receiving buffer keeps *)

Section receiver.
Context `{!Gzip, !Base64}.

Lemma ReadB64Chunk_size (ch : Chunks) (frame : string) :
  size (state_after (ReadB64Chunk ch frame)) = size ch.
Proof.
  unfold ReadB64Chunk.
  destruct (DecodeString frame) as [chunk|]; [|reflexivity].
  destruct (decide (count ch = 0)).
  - destruct (byte_at chunk 2) as [c2|]; [|reflexivity].
    destruct (byte_at chunk 3) as [c3|]; [|reflexivity].
    cbn [mbind option_bind].
    destruct (byte_at chunk 0), (byte_at chunk 1), (byte_at chunk 4),
      (byte_at chunk 5); try reflexivity.
    cbn [data]. destruct (replicate _ _ !! _) as [[slot|]|]; try reflexivity.
    destruct (reslice _ _ _); reflexivity.
  - destruct (byte_at chunk 0), (byte_at chunk 1), (byte_at chunk 4),
      (byte_at chunk 5); try reflexivity.
    destruct (data ch !! _) as [[slot|]|]; try reflexivity.
    destruct (reslice _ _ _); reflexivity.
Qed.

Lemma ReadB64Chunk_count_range (ch : Chunks) (frame : string) :
  0 ≤ count ch < 65536 →
  0 ≤ count (state_after (ReadB64Chunk ch frame)) < 65536.
Proof.
  intros Hr. unfold ReadB64Chunk.
  destruct (DecodeString frame) as [chunk|]; [|exact Hr].
  destruct (decide (count ch = 0)).
  - destruct (byte_at chunk 2) as [c2|]; [|exact Hr].
    destruct (byte_at chunk 3) as [c3|]; [|exact Hr].
    cbn [mbind option_bind]. pose proof (le16_range c2 c3) as Hc.
    destruct (byte_at chunk 0), (byte_at chunk 1), (byte_at chunk 4),
      (byte_at chunk 5); try exact Hc.
    cbn [data]. destruct (replicate _ _ !! _) as [[slot|]|]; try exact Hc.
    destruct (reslice _ _ _); exact Hc.
  - destruct (byte_at chunk 0), (byte_at chunk 1), (byte_at chunk 4),
      (byte_at chunk 5); try exact Hr.
    destruct (data ch !! _) as [[slot|]|]; try exact Hr.
    destruct (reslice _ _ _); exact Hr.
Qed.

Lemma reachable_fields (ch : Chunks) :
  reachable ch →
  Z.of_nat (length (data ch)) = count ch
  ∧ 0 ≤ count ch < 65536
  ∧ size ch = 0.
Proof.
  induction 1 as [|ch ch' frame w err _ IH Hread|ch ch' frame _ IH Hread].
  - done.
  - destruct IH as (Hlen & Hrange & Hsize).
    pose proof (ReadB64Chunk_table_length ch frame Hlen) as H1.
    pose proof (ReadB64Chunk_count_range ch frame Hrange) as H2.
    pose proof (ReadB64Chunk_size ch frame) as H3.
    rewrite Hread in H1, H2, H3. cbn [state_after] in *.
    split; [exact H1|]. split; [exact H2|]. by rewrite H3.
  - destruct IH as (Hlen & Hrange & Hsize).
    pose proof (ReadB64Chunk_table_length ch frame Hlen) as H1.
    pose proof (ReadB64Chunk_count_range ch frame Hrange) as H2.
    pose proof (ReadB64Chunk_size ch frame) as H3.
    rewrite Hread in H1, H2, H3. cbn [state_after] in *.
    split; [exact H1|]. split; [exact H2|]. by rewrite H3.
Qed.

(** X6.  Every buffer a receiver can be in, starting from the empty
    buffer, through calls of [ReadB64Chunk] that return or panic: its
    table has exactly [count] slots, its count is a 16-bit value, and
    its size field is still zero, since [ReadB64Chunk] never assigns
    it. *)
Theorem receiver_invariant (ch : Chunks) :
  reachable ch →
  Z.of_nat (length (data ch)) = count ch
  ∧ 0 ≤ count ch < 65536
  ∧ size ch = 0.
Proof. apply reachable_fields. Qed.

(** X7.  On every buffer a receiver can be in, [IsReady] answers
    [true], whether or not slots are still empty. *)
Theorem IsReady_always_true (ch : Chunks) : reachable ch → IsReady ch = true.
Proof.
  intros Hch. unfold IsReady. apply bool_decide_eq_true_2.
  apply reachable_table_length, Hch.
Qed.

(** X8.  Once the count of a buffer is not zero, no call of
    [ReadB64Chunk] changes it, whatever the frame says, and the table
    keeps its length; the call may end by returning or by a panic. *)
Theorem count_fixed_once (ch : Chunks) (frame : string) :
  count ch ≠ 0 →
  count (state_after (ReadB64Chunk ch frame)) = count ch
  ∧ length (data (state_after (ReadB64Chunk ch frame))) = length (data ch).
Proof.
  intros Hnz. unfold ReadB64Chunk.
  destruct (DecodeString frame) as [chunk|]; [|done].
  rewrite decide_False by exact Hnz.
  destruct (byte_at chunk 0), (byte_at chunk 1), (byte_at chunk 4),
    (byte_at chunk 5); try done.
  destruct (data ch !! _) as [[slot|]|]; try done.
  destruct (reslice _ _ _); cbn [state_after count data];
    rewrite ?length_insert; done.
Qed.

(** X9.  First write wins: a slot that holds a payload holds the same
    payload after any further call of [ReadB64Chunk], whatever frame is
    given and however the call ends. *)
Theorem filled_slot_is_kept (ch : Chunks) (frame : string) (i : nat)
    (payload : list byte) :
  count ch ≠ 0 →
  data ch !! i = Some (Some payload) →
  data (state_after (ReadB64Chunk ch frame)) !! i = Some (Some payload).
Proof.
  intros Hnz Hi. unfold ReadB64Chunk.
  destruct (DecodeString frame) as [chunk|]; [|done].
  rewrite decide_False by exact Hnz.
  destruct (byte_at chunk 0) as [c0|], (byte_at chunk 1) as [c1|],
    (byte_at chunk 4), (byte_at chunk 5); try done.
  destruct (data ch !! Z.to_nat (le16 c0 c1)) as [[slot|]|] eqn:Hslot;
    try done.
  assert (Z.to_nat (le16 c0 c1) ≠ i) as Hne by congruence.
  destruct (reslice _ _ _); cbn [state_after count data];
    rewrite ?list_insert_insert_eq, list_lookup_insert_ne by exact Hne;
    exact Hi.
Qed.

(** X10.  The count field of a frame is read only while the count of
    the buffer is zero: on a buffer whose count is fixed, two frames
    that differ in nothing but their count bytes have the same effect
    and the same result. *)
Theorem later_count_field_is_ignored (ch : Chunks) (frame1 frame2 : string)
    (h0 h1 a2 a3 b2 b3 h4 h5 : byte) (body sp : list byte) :
  count ch ≠ 0 →
  DecodeString frame1
  = Some (Slice (h0 :: h1 :: a2 :: a3 :: h4 :: h5 :: body) sp) →
  DecodeString frame2
  = Some (Slice (h0 :: h1 :: b2 :: b3 :: h4 :: h5 :: body) sp) →
  ReadB64Chunk ch frame1 = ReadB64Chunk ch frame2.
Proof.
  intros Hnz H1 H2.
  rewrite (ReadB64Chunk_fixed _ _ _ _ _ _ _ _ _ _ H1) by exact Hnz.
  rewrite (ReadB64Chunk_fixed _ _ _ _ _ _ _ _ _ _ H2) by exact Hnz.
  reflexivity.
Qed.

(** X11.  What [wasAdded] reports, on a buffer whose count is fixed.
    A call that returns [false] without error found the addressed slot
    filled and left the buffer as it was.  A call that returns [true]
    found the slot empty, and the buffer it leaves differs in that slot
    only, which now holds a payload of exactly as many bytes as the size
    field of the frame declares. *)
Theorem wasAdded_reports_the_slot (ch ch' : Chunks) (frame : string)
    (wasAdded : bool) :
  count ch ≠ 0 →
  ReadB64Chunk ch frame = Returned ch' wasAdded None →
  ∃ (chunk : slice) (c0 c1 c4 c5 : byte),
    DecodeString frame = Some chunk
    ∧ byte_at chunk 0 = Some c0 ∧ byte_at chunk 1 = Some c1
    ∧ byte_at chunk 4 = Some c4 ∧ byte_at chunk 5 = Some c5
    ∧ if wasAdded then
        data ch !! Z.to_nat (le16 c0 c1) = Some None
        ∧ ∃ payload : list byte,
            Z.of_nat (length payload) = le16 c4 c5
            ∧ ch' = {| count := count ch; size := size ch;
                       data := <[Z.to_nat (le16 c0 c1) := Some payload]>
                                 (data ch) |}
      else
        ch' = ch
        ∧ ∃ payload : list byte,
            data ch !! Z.to_nat (le16 c0 c1) = Some (Some payload).
Proof.
  intros Hnz. unfold ReadB64Chunk.
  destruct (DecodeString frame) as [chunk|] eqn:Hdec; [|discriminate].
  rewrite decide_False by exact Hnz.
  destruct (byte_at chunk 0) as [c0|] eqn:Hb0; [|discriminate].
  destruct (byte_at chunk 1) as [c1|] eqn:Hb1; [|discriminate].
  destruct (byte_at chunk 4) as [c4|] eqn:Hb4; [|discriminate].
  destruct (byte_at chunk 5) as [c5|] eqn:Hb5; [|discriminate].
  destruct (data ch !! Z.to_nat (le16 c0 c1)) as [[slot|]|] eqn:Hslot;
    [| |discriminate].
  - intros [= <- <-]. exists chunk, c0, c1, c4, c5.
    do 5 (split; [done|]). split; [reflexivity|]. by exists slot.
  - destruct (reslice _ _ _) as [src|]; [|discriminate].
    intros [= <- <-]. exists chunk, c0, c1, c4, c5.
    do 5 (split; [done|]). split; [done|].
    cbn [count size data].
    exists (copy (make (le16 c4 c5)) src). split.
    + rewrite length_copy, length_make. pose proof (le16_range c4 c5). lia.
    + rewrite list_insert_insert_eq. reflexivity.
Qed.

(** X12.  On every buffer a receiver can be in, [Data] and
    [SerializeB64] do not panic.  [SerializeB64] gives one frame per
    slot, and each frame is the base64 text of six header bytes and
    nothing else: the size field of a receiving buffer is zero, so the
    payloads it holds are left out of the frames. *)
Theorem receiver_reads_do_not_panic (ch : Chunks) :
  reachable ch →
  is_Some (Data ch)
  ∧ ∃ raw : list (list byte),
      SerializeB64 ch = Some (EncodeToString <$> raw)
      ∧ length raw = length (data ch)
      ∧ Forall (λ f, length f = 6%nat) raw.
Proof.
  intros Hch. destruct (reachable_fields ch Hch) as (Hlen & Hrange & Hsize).
  split.
  - unfold Data.
    destruct (mapM (λ index : Z, data ch !! Z.to_nat index)
                   (seqZ 0 (count ch))) as [slots|] eqn:Hm; [by eexists|].
    apply mapM_None in Hm. apply Exists_exists in Hm as (z & Hz & Hnone).
    apply elem_of_seqZ in Hz. apply lookup_ge_None in Hnone. lia.
  - assert (∀ i : nat, (i < length (data ch))%nat →
              ∃ f, getChunkWithHeader ch (Z.of_nat i) = Some f
                   ∧ length f = 6%nat) as Hframe.
    { intros i Hi. destruct (lookup_lt_is_Some_2 _ _ Hi) as [slot Hslot].
      unfold getChunkWithHeader. rewrite Nat2Z.id, Hslot, Hsize.
      cbn [mbind option_bind]. eexists. split; [reflexivity|].
      rewrite length_app, length_copy. reflexivity. }
    assert (∃ raw, mapM (getChunkWithHeader ch) (seqZ 0 (count ch)) = Some raw)
      as [raw Hraw].
    { apply mapM_is_Some_2, Forall_forall. intros z Hz.
      apply elem_of_seqZ in Hz.
      destruct (Hframe (Z.to_nat z)) as (f & Hf & _); [lia|].
      rewrite Z2Nat.id in Hf by lia. cbn. by eexists. }
    exists raw. split; [|split].
    + unfold SerializeB64. clear -Hraw.
      revert raw Hraw. generalize (seqZ 0 (count ch)).
      induction l as [|z l IH]; intros raw Hraw.
      * cbn in Hraw. injection Hraw as <-. reflexivity.
      * cbn [mapM] in *.
        destruct (getChunkWithHeader ch z) as [f|]; [|discriminate].
        cbn [mbind option_bind fmap option_fmap option_map] in *.
        destruct (mapM (getChunkWithHeader ch) l) as [fs|]; [|discriminate].
        cbn in Hraw. injection Hraw as <-.
        rewrite (IH fs eq_refl). reflexivity.
    + apply length_mapM in Hraw. rewrite length_seqZ in Hraw. lia.
    + apply mapM_Some in Hraw. apply Forall_forall. intros f Hf.
      apply list_elem_of_lookup in Hf as [i Hi].
      destruct (Forall2_lookup_r _ _ _ _ _ Hraw Hi) as (z & Hz & Hget).
      apply lookup_seqZ in Hz as [-> Hz].
      destruct (Hframe i) as (f' & Hf' & Hlen'); [lia|].
      rewrite Z.add_0_l, Hf' in Hget. by injection Hget as <-.
Qed.

End receiver.


(** ** Delivery of frames in any order, with repetitions *)

Section delivery.
Context `{!Gzip, !Base64}.

Lemma EncodeToString_inj (x y : list byte) :
  Base64Laws → EncodeToString x = EncodeToString y → x = y.
Proof.
  intros Hlaw Heq.
  destruct (decode_encode x) as [sx Hx]. destruct (decode_encode y) as [sy Hy].
  rewrite Heq, Hy in Hx. by injection Hx.
Qed.

Lemma chunk_frame_index (n p : Z) (i j : nat) (c d : list byte) :
  Z.of_nat i < 65536 → Z.of_nat j < 65536 →
  chunk_frame n p i c = chunk_frame n p j d → i = j.
Proof.
  intros Hi Hj Heq. unfold chunk_frame in Heq. cbn [app] in Heq.
  injection Heq as Hlo Hhi _.
  assert (le16 (byte_of_Z (Z.of_nat i)) (byte_of_Z (Z.of_nat i ≫ 8))
          = le16 (byte_of_Z (Z.of_nat j)) (byte_of_Z (Z.of_nat j ≫ 8)))
    as Hle by (rewrite Hlo, Hhi; reflexivity).
  rewrite !le16_bytes in Hle by lia. lia.
Qed.

(** Frames of the message, in any order and with repetitions, on the
    empty buffer. *)
Lemma read_frames_new_order (n p : Z) (cs : list (list byte))
    (order : list (nat * list byte)) :
  Base64Laws →
  n = Z.of_nat (length cs) →
  0 < n < 65536 →
  0 ≤ p ≤ 65529 →
  Forall (λ c, Z.of_nat (length c) ≤ p) cs →
  order ≠ [] →
  Forall (λ ic, cs !! ic.1 = Some ic.2) order →
  read_frames NewChunks
    ((λ ic, EncodeToString (chunk_frame n p ic.1 ic.2)) <$> order)
  = Some {| count := n; size := 0;
            data := received cs (reverse order.*1 ++ []) |}.
Proof.
  intros Hlaw Hn Hrange Hp Hcs Hne Horder.
  set (g := λ ic : nat * list byte, EncodeToString (chunk_frame n p ic.1 ic.2)).
  destruct order as [|[i c] order]; [done|].
  transitivity (read_frames {| count := n; size := 0; data := received cs [] |}
                            (g <$> (i, c) :: order)).
  - rewrite fmap_cons. cbn [read_frames]. f_equal.
    destruct (decode_encode (chunk_frame n p i c)) as [sp Hdec].
    unfold g at 1 3. cbn [fst snd].
    unfold chunk_frame in Hdec. cbn [app] in Hdec.
    rewrite (ReadB64Chunk_first _ _ _ _ _ _ _ _ _ _ Hdec);
      rewrite ?le16_bytes by lia; try done; try lia.
    rewrite received_nil. cbn [size NewChunks].
    replace (Z.to_nat n) with (length cs) by lia. reflexivity.
  - unfold g. rewrite (read_frames_received n p 0 cs) by done. reflexivity.
Qed.

(** Every list of frames of the message is the list of frames of some
    list of its chunks. *)
Lemma frames_have_an_order (n p : Z) (cs : list (list byte))
    (frames' : list string) :
  (∀ f, f ∈ frames' →
        f ∈ imap (λ i c, EncodeToString (chunk_frame n p i c)) cs) →
  ∃ order : list (nat * list byte),
    frames' = (λ ic, EncodeToString (chunk_frame n p ic.1 ic.2)) <$> order
    ∧ Forall (λ ic, cs !! ic.1 = Some ic.2) order.
Proof.
  induction frames' as [|f frames' IH]; intros Hsub.
  - exists []. split; [reflexivity | constructor].
  - destruct IH as (order & -> & Horder).
    { intros f' Hf'. apply Hsub. by apply list_elem_of_further. }
    destruct (proj1 (elem_of_lookup_imap _ _ _)
                (Hsub f (list_elem_of_here _ _))) as (i & c & -> & Hc).
    exists ((i, c) :: order). split; [reflexivity|].
    constructor; [exact Hc | exact Horder].
Qed.

(** The buffer after the delivery of any non-empty list of frames of
    the message: slot [i] holds chunk [i] if the frame of chunk [i] is
    in the list, and is empty otherwise. *)
Lemma read_frames_subset (n p : Z) (cs : list (list byte))
    (frames' : list string) :
  Base64Laws →
  n = Z.of_nat (length cs) →
  0 < n < 65536 →
  0 ≤ p ≤ 65529 →
  Forall (λ c, Z.of_nat (length c) ≤ p) cs →
  frames' ≠ [] →
  (∀ f, f ∈ frames' →
        f ∈ imap (λ i c, EncodeToString (chunk_frame n p i c)) cs) →
  read_frames NewChunks frames'
  = Some {| count := n; size := 0;
            data := imap (λ i c,
                            if bool_decide
                                 (EncodeToString (chunk_frame n p i c)
                                  ∈ frames')
                            then Some c else None) cs |}.
Proof.
  intros Hlaw Hn Hrange Hp Hcs Hne Hsub.
  destruct (frames_have_an_order n p cs frames' Hsub) as (order & -> & Horder).
  rewrite (read_frames_new_order n p cs order) by (done || by intros ->).
  do 2 f_equal. unfold received. apply imap_ext. intros i c Hc.
  apply lookup_lt_Some in Hc as Hi.
  rewrite app_nil_r.
  rewrite (bool_decide_ext (i ∈ reverse order.*1)
             (EncodeToString (chunk_frame n p i c)
              ∈ (λ ic, EncodeToString (chunk_frame n p ic.1 ic.2)) <$> order));
    [reflexivity|].
  rewrite elem_of_reverse, !list_elem_of_fmap. split.
  - intros ([j d] & Hij & Hin). cbn [fst] in Hij. subst j.
    exists (i, d). split; [|exact Hin]. cbn [fst snd].
    pose proof (proj1 (Forall_forall _ _) Horder _ Hin) as Hd. cbn in Hd.
    rewrite Hd in Hc. by injection Hc as ->.
  - intros ([j d] & Heq & Hin). exists (j, d). split; [|exact Hin].
    cbn [fst snd] in *.
    pose proof (proj1 (Forall_forall _ _) Horder _ Hin) as Hd. cbn in Hd.
    apply lookup_lt_Some in Hd.
    apply EncodeToString_inj in Heq; [|exact Hlaw].
    apply chunk_frame_index in Heq; lia.
Qed.

(** The frames of a split input reassemble from any list that holds
    each of them at least once. *)
Lemma frames_roundtrip (fuel : nat) (b : list byte) (s : Z) :
  Base64Laws →
  GzipLaws →
  7 ≤ s ≤ 65530 →
  Z.of_nat (length (gzip_write b)) ≤ 65535 * (s - 6) →
  (length (gzip_write b) < fuel)%nat →
  ∃ (ch : Chunks) (frames : list string),
    SetData fuel b s = Some (Ok ch)
    ∧ SerializeB64 ch = Some frames
    ∧ ∀ frames' : list string,
        (∀ f, f ∈ frames' ↔ f ∈ frames) →
        ∃ ch' : Chunks,
          read_frames NewChunks frames' = Some ch'
          ∧ data ch' = data ch
          ∧ Data ch' = Some b.
Proof.
  intros Hb64 Hgz Hs Hmax Hfuel.
  destruct (SetData_spec fuel b s Hs Hfuel) as (cs & Hrun & Hcat & Hlen & Hn).
  assert (Z.of_nat (length cs) < 65536) as Hcount.
  { rewrite Hn. apply Z.div_lt_upper_bound; lia. }
  assert (uint16 (Z.of_nat (length cs)) = Z.of_nat (length cs)) as Hu.
  { unfold uint16. apply Z.mod_small. lia. }
  rewrite Hu in Hrun.
  eexists _, _. split; [exact Hrun|]. split.
  { apply SerializeB64_spec; [reflexivity | lia | exact Hlen]. }
  intros frames' Hsame.
  assert (uncompress (concat cs) = Ok b) as Hunc.
  { rewrite Hcat. unfold uncompress. rewrite readall_write. reflexivity. }
  destruct cs as [|c cs].
  - assert (frames' = []) as ->.
    { destruct frames' as [|f fs]; [reflexivity|].
      pose proof (proj1 (Hsame f) (list_elem_of_here _ _)) as Hin.
      cbn in Hin. by apply elem_of_nil in Hin. }
    exists NewChunks. split; [reflexivity|]. split; [reflexivity|].
    unfold Data. cbn [count NewChunks]. rewrite seqZ_nil by lia.
    cbn. cbn in Hunc. rewrite Hunc. reflexivity.
  - eexists. split; [|split].
    + apply (read_frames_subset (Z.of_nat (length (c :: cs))) (s - 6)
               (c :: cs)); try done; try (simpl length in *; lia).
      * intros ->.
        pose proof (proj2 (Hsame (EncodeToString
                      (chunk_frame (Z.of_nat (length (c :: cs))) (s - 6) 0 c)))
                      (list_elem_of_here _ _)) as Hin.
        by apply elem_of_nil in Hin.
      * intros f Hf. by apply Hsame.
    + cbn [data]. apply list_eq. intros i.
      rewrite list_lookup_imap, list_lookup_fmap.
      destruct ((c :: cs) !! i) as [ci|] eqn:Hci; [|reflexivity].
      cbn [fmap option_fmap option_map].
      rewrite bool_decide_eq_true_2; [reflexivity|].
      apply Hsame. eapply elem_of_lookup_imap_2 in Hci. exact Hci.
    + assert (imap (λ i c0,
                 if bool_decide
                      (EncodeToString
                         (chunk_frame (Z.of_nat (length (c :: cs))) (s - 6) i c0)
                       ∈ frames')
                 then Some c0 else None) (c :: cs) = Some <$> c :: cs) as ->.
      { apply list_eq. intros i.
        rewrite list_lookup_imap, list_lookup_fmap.
        destruct ((c :: cs) !! i) as [ci|] eqn:Hci; [|reflexivity].
        cbn [fmap option_fmap option_map].
        rewrite bool_decide_eq_true_2; [reflexivity|].
        apply Hsame. eapply elem_of_lookup_imap_2 in Hci. exact Hci. }
      rewrite Data_complete by reflexivity. rewrite Hunc. reflexivity.
Qed.

(** X13.  Round trip with repeated frames.  For a chunk size [s] from
    7 to 65530 and a stream of at most 65535 chunks, any list of frames
    that contains every frame [SerializeB64] gave at least once, and
    nothing else, in any order and with any repetitions, fed to an
    empty buffer with [ReadB64Chunk], gives a buffer on which [Data]
    returns the input. *)
Theorem roundtrip_with_repeated_frames (fuel : nat) (b : list byte) (s : Z) :
  Base64Laws →
  GzipLaws →
  7 ≤ s ≤ 65530 →
  Z.of_nat (length (gzip_write b)) ≤ 65535 * (s - 6) →
  (length (gzip_write b) < fuel)%nat →
  ∃ (ch : Chunks) (frames : list string),
    SetData fuel b s = Some (Ok ch)
    ∧ SerializeB64 ch = Some frames
    ∧ ∀ frames' : list string,
        (∀ f, f ∈ frames' ↔ f ∈ frames) →
        ∃ ch' : Chunks,
          read_frames NewChunks frames' = Some ch'
          ∧ data ch' = data ch
          ∧ Data ch' = Some b.
Proof. apply frames_roundtrip. Qed.

(** X14.  Partial delivery.  Any non-empty list of frames taken from
    the frames [SerializeB64] gave, fed to an empty buffer, is accepted
    without error; the buffer then has the count of the message, and
    slot [i] holds chunk [i] exactly when frame [i] was in the list and
    is empty otherwise. *)
Theorem partial_delivery (fuel : nat) (b : list byte) (s : Z)
    (frames' : list string) :
  Base64Laws →
  7 ≤ s ≤ 65530 →
  Z.of_nat (length (gzip_write b)) ≤ 65535 * (s - 6) →
  (length (gzip_write b) < fuel)%nat →
  frames' ≠ [] →
  ∃ (ch : Chunks) (frames : list string),
    SetData fuel b s = Some (Ok ch)
    ∧ SerializeB64 ch = Some frames
    ∧ ((∀ f, f ∈ frames' → f ∈ frames) →
       ∃ ch' : Chunks,
         read_frames NewChunks frames' = Some ch'
         ∧ count ch' = count ch
         ∧ ∀ (i : nat) (f : string),
             frames !! i = Some f →
             data ch' !! i
             = if bool_decide (f ∈ frames') then data ch !! i else Some None).
Proof.
  intros Hb64 Hs Hmax Hfuel Hne.
  destruct (SetData_spec fuel b s Hs Hfuel) as (cs & Hrun & Hcat & Hlen & Hn).
  assert (Z.of_nat (length cs) < 65536) as Hcount.
  { rewrite Hn. apply Z.div_lt_upper_bound; lia. }
  assert (uint16 (Z.of_nat (length cs)) = Z.of_nat (length cs)) as Hu.
  { unfold uint16. apply Z.mod_small. lia. }
  rewrite Hu in Hrun.
  eexists _, _. split; [exact Hrun|]. split.
  { apply SerializeB64_spec; [reflexivity | lia | exact Hlen]. }
  intros Hsub.
  assert (0 < Z.of_nat (length cs)) as Hpos.
  { destruct cs as [|c cs]; [|simpl; lia].
    destruct frames' as [|f fs]; [done|].
    pose proof (Hsub f (list_elem_of_here _ _)) as Hin.
    cbn in Hin. by apply elem_of_nil in Hin. }
  eexists. split; [|split].
  - apply (read_frames_subset (Z.of_nat (length cs)) (s - 6) cs);
      try done; lia.
  - reflexivity.
  - intros i f Hf. cbn [data].
    apply list_lookup_imap_Some in Hf as (c & Hc & ->).
    rewrite list_lookup_imap, list_lookup_fmap, Hc.
    cbn [fmap option_fmap option_map].
    destruct (bool_decide _); reflexivity.
Qed.

End delivery.


(** ** The receiver on concrete frames *)

(** A buffer that has received the frame of chunk 1 of three. *)
Lemma example_reachable :
  @reachable StdEncoding
    {| count := 3; size := 0; data := [None; Some [x68; x69]; None] |}.
Proof.
  apply (@reachable_read StdEncoding NewChunks _ "AQADAAIAaGk=" true None).
  - apply reachable_new.
  - reflexivity.
Qed.

(** X6, witness. *)
Lemma receiver_invariant_witness :
  Z.of_nat (length [None; Some [x68; x69]; @None (list byte)]) = 3
  ∧ 0 ≤ 3 < 65536
  ∧ 0 = 0.
Proof.
  apply (@receiver_invariant StdEncoding
           {| count := 3; size := 0; data := [None; Some [x68; x69]; None] |}).
  exact example_reachable.
Defined.

(** X7, witness: one chunk of three received. *)
Lemma IsReady_always_true_witness :
  IsReady {| count := 3; size := 0; data := [None; Some [x68; x69]; None] |}
  = true.
Proof.
  apply (@IsReady_always_true StdEncoding). exact example_reachable.
Defined.

(** X8, witness: a frame that announces nine chunks, on a buffer of
    three. *)
Lemma count_fixed_once_witness :
  let ch := {| count := 3; size := 0; data := [None; Some [x68; x69]; None] |} in
  count (@state_after StdEncoding (@ReadB64Chunk StdEncoding ch "AAAJAAIAH4s=")) = 3
  ∧ length (data (@state_after StdEncoding (@ReadB64Chunk StdEncoding ch "AAAJAAIAH4s=")))
    = 3%nat.
Proof.
  intros ch. apply (@count_fixed_once StdEncoding ch "AAAJAAIAH4s=").
  simpl. lia.
Defined.

(** X9, witness: slot 1 holds [hi]; a frame for slot 1 with the payload
    [zz] is given. *)
Lemma filled_slot_is_kept_witness :
  let ch := {| count := 3; size := 0; data := [None; Some [x68; x69]; None] |} in
  data (@state_after StdEncoding (@ReadB64Chunk StdEncoding ch "AQADAAIAeno=")) !! 1%nat
  = Some (Some [x68; x69]).
Proof.
  intros ch.
  apply (@filled_slot_is_kept StdEncoding ch "AQADAAIAeno=" 1
           [x68; x69]).
  - simpl. lia.
  - reflexivity.
Defined.

(** X10, witness: the frame of chunk 0 with count 3 and with count 9. *)
Lemma later_count_field_is_ignored_witness :
  let ch := {| count := 3; size := 0; data := [None; Some [x68; x69]; None] |} in
  @ReadB64Chunk StdEncoding ch "AAADAAIAH4s="
  = @ReadB64Chunk StdEncoding ch "AAAJAAIAH4s=".
Proof.
  intros ch.
  apply (@later_count_field_is_ignored StdEncoding ch
           "AAADAAIAH4s=" "AAAJAAIAH4s="
           x00 x00 x03 x00 x09 x00 x02 x00 [x1f; x8b] [x00]).
  - simpl. lia.
  - reflexivity.
  - reflexivity.
Defined.

(** X11, witness: the frame of chunk 0 on a buffer whose slot 0 is
    empty. *)
Lemma wasAdded_reports_the_slot_witness :
  let ch := {| count := 3; size := 0; data := [None; Some [x68; x69]; None] |} in
  ∃ (chunk : slice) (c0 c1 c4 c5 : byte),
    @DecodeString StdEncoding "AAADAAIAH4s=" = Some chunk
    ∧ byte_at chunk 0 = Some c0 ∧ byte_at chunk 1 = Some c1
    ∧ byte_at chunk 4 = Some c4 ∧ byte_at chunk 5 = Some c5
    ∧ data ch !! Z.to_nat (le16 c0 c1) = Some None
    ∧ ∃ payload : list byte,
        Z.of_nat (length payload) = le16 c4 c5
        ∧ {| count := 3; size := 0;
             data := [Some [x1f; x8b]; Some [x68; x69]; None] |}
          = {| count := count ch; size := size ch;
               data := <[Z.to_nat (le16 c0 c1) := Some payload]> (data ch) |}.
Proof.
  intros ch.
  apply (@wasAdded_reports_the_slot StdEncoding ch
           {| count := 3; size := 0;
              data := [Some [x1f; x8b]; Some [x68; x69]; None] |}
           "AAADAAIAH4s=" true).
  - simpl. lia.
  - reflexivity.
Defined.

(** X12, witness. *)
Lemma receiver_reads_do_not_panic_witness :
  let ch := {| count := 3; size := 0; data := [None; Some [x68; x69]; None] |} in
  is_Some (@Data StoredGzip ch)
  ∧ ∃ raw : list (list byte),
      @SerializeB64 StdEncoding ch = Some (@EncodeToString StdEncoding <$> raw)
      ∧ length raw = length (data ch)
      ∧ Forall (λ f, length f = 6%nat) raw.
Proof.
  intros ch. apply (@receiver_reads_do_not_panic StoredGzip StdEncoding ch).
  exact example_reachable.
Defined.

(** X13, witness: [hi!] with chunk size 8. *)
Lemma roundtrip_with_repeated_frames_witness :
  ∃ (ch : Chunks) (frames : list string),
    @SetData StoredGzip 6 [x68; x69; x21] 8 = Some (Ok ch)
    ∧ @SerializeB64 StdEncoding ch = Some frames
    ∧ ∀ frames' : list string,
        (∀ f, f ∈ frames' ↔ f ∈ frames) →
        ∃ ch' : Chunks,
          @read_frames StdEncoding NewChunks frames' = Some ch'
          ∧ data ch' = data ch
          ∧ @Data StoredGzip ch' = Some [x68; x69; x21].
Proof.
  apply (@roundtrip_with_repeated_frames StoredGzip StdEncoding 6
           [x68; x69; x21] 8).
  - exact StdEncoding_laws.
  - exact StoredGzip_laws.
  - lia.
  - simpl. lia.
  - simpl. lia.
Defined.

(** X14, witness: the frames of chunks 2 and 0 of [hi!], chunk 2
    twice. *)
Lemma partial_delivery_witness :
  ∃ (ch : Chunks) (frames : list string),
    @SetData StoredGzip 6 [x68; x69; x21] 8 = Some (Ok ch)
    ∧ @SerializeB64 StdEncoding ch = Some frames
    ∧ ((∀ f, f ∈ ["AgADAAEAIQA="; "AAADAAIAH4s="; "AgADAAEAIQA="]%string
             → f ∈ frames) →
       ∃ ch' : Chunks,
         @read_frames StdEncoding NewChunks
           ["AgADAAEAIQA="; "AAADAAIAH4s="; "AgADAAEAIQA="]
         = Some ch'
         ∧ count ch' = count ch
         ∧ ∀ (i : nat) (f : string),
             frames !! i = Some f →
             data ch' !! i
             = if bool_decide
                    (f ∈ ["AgADAAEAIQA="; "AAADAAIAH4s="; "AgADAAEAIQA="]%string)
               then data ch !! i else Some None).
Proof.
  apply (@partial_delivery StoredGzip StdEncoding 6 [x68; x69; x21] 8).
  - exact StdEncoding_laws.
  - lia.
  - simpl. lia.
  - simpl. lia.
  - discriminate.
Defined.


(** ** What [Unmarshal] returns *)

Lemma reslice_length (s : slice) (lo hi : Z) (d : list byte) :
  reslice s lo hi = Some d → Z.of_nat (length d) = hi - lo.
Proof.
  unfold reslice, cap. destruct (decide _) as [Hin|]; [|discriminate].
  intros [= <-]. rewrite length_take, length_drop, length_app. lia.
Qed.

Lemma read_op_header_range (data : slice) (iter opCode size_ : Z) :
  read_op_header data iter = Some (opCode, size_) →
  0 ≤ opCode < 2 ^ 16 ∧ 0 ≤ size_ < 2 ^ 32.
Proof.
  unfold read_op_header. intros Hrd.
  destruct (byte_at data (iter + 1)) as [d1|]; [|discriminate].
  destruct (byte_at data iter) as [d0|]; [|discriminate].
  destruct (byte_at data (iter + 5)) as [d5|]; [|discriminate].
  destruct (byte_at data (iter + 4)) as [d4|]; [|discriminate].
  destruct (byte_at data (iter + 3)) as [d3|]; [|discriminate].
  destruct (byte_at data (iter + 2)) as [d2|]; [|discriminate].
  cbn in Hrd. injection Hrd as <- <-.
  pose proof (byte_to_Z_range d0). pose proof (byte_to_Z_range d1).
  pose proof (byte_to_Z_range d5). pose proof (byte_to_Z_range d4).
  pose proof (byte_to_Z_range d3). pose proof (byte_to_Z_range d2).
  rewrite (lor_shiftl_add _ _ 8) by (change (2 ^ 8) with 256; lia).
  rewrite (lor_shiftl_add (byte_to_Z d5) _ 8) by (change (2 ^ 8) with 256; lia).
  rewrite (lor_shiftl_add _ _ 16)
    by (change (2 ^ 8) with 256; change (2 ^ 16) with 65536; lia).
  rewrite (lor_shiftl_add _ _ 24)
    by (change (2 ^ 8) with 256; change (2 ^ 16) with 65536;
        change (2 ^ 24) with 16777216; lia).
  change (2 ^ 8) with 256. change (2 ^ 16) with 65536.
  change (2 ^ 24) with 16777216. change (2 ^ 32) with 4294967296. lia.
Qed.

(** The loop returns a message or panics; it has no error to return. *)
Lemma unmarshal_loop_no_error (data : slice) (e : string) :
  ∀ (fuel : nat) (iter : Z) (message : Message),
    unmarshal_loop fuel data iter message ≠ Some (Err e).
Proof.
  induction fuel as [|fuel IH]; intros iter message; [discriminate|].
  cbn [unmarshal_loop].
  destruct (decide _); [|discriminate].
  destruct (read_op_header data iter) as [[opCode size_]|]; [|discriminate].
  destruct (reslice _ _ _); [|discriminate].
  apply IH.
Qed.

(** A well-formed operation, as [Unmarshal] appends it: a 16-bit op
    code and a size that is the length of the data. *)
Lemma unmarshal_loop_payload (data : slice) :
  ∀ (fuel : nat) (iter : Z) (m m' : Message),
    unmarshal_loop fuel data iter m = Some (Ok m') →
    Version m' = Version m
    ∧ InstanceId m' = InstanceId m
    ∧ m_chunkSize m' = m_chunkSize m
    ∧ m_e m' = m_e m
    ∧ ∃ new : list OpPayload,
        Payload m' = Payload m ++ new
        ∧ Forall (λ op, 0 ≤ OpCode op < 2 ^ 16
                        ∧ Size op = Z.of_nat (length (OpData op))
                        ∧ Size op < 2 ^ 32) new.
Proof.
  induction fuel as [|fuel IH]; intros iter m m'; [discriminate|].
  cbn [unmarshal_loop].
  destruct (decide _).
  - destruct (read_op_header data iter) as [[opCode size_]|] eqn:Hrd;
      [|discriminate].
    destruct (reslice _ _ _) as [d|] eqn:Hd; [|discriminate].
    intros Hrun. apply IH in Hrun as (-> & -> & -> & -> & new & -> & Hnew).
    cbn [AddOperation Version InstanceId m_chunkSize m_e Payload].
    do 4 (split; [reflexivity|]).
    eexists. split; [rewrite <- app_assoc; reflexivity|].
    apply read_op_header_range in Hrd as [Hc Hs].
    apply reslice_length in Hd. unfold operationPayloadOffset in Hd.
    constructor; [|exact Hnew]. cbn [OpCode Size OpData].
    unfold uint32. rewrite Z.mod_small by lia. lia.
  - intros [= <-]. do 4 (split; [reflexivity|]).
    exists []. split; [by rewrite app_nil_r | constructor].
Qed.

(** X15.  [Unmarshal] ends on every input: every round of its loop
    moves the read position forward by at least six bytes, so the call
    returns a message or an error, or panics, and never runs on. *)
Theorem Unmarshal_terminates (a : AirGap) (data : slice) :
  ∃ r : outcome Message, Unmarshal a data = Some r.
Proof. apply Unmarshal_total. Qed.

(** X16.  The only errors [Unmarshal] returns are the error of
    [Decrypt], unchanged, and the three errors of the header checks;
    the loop over the operation records has no error to return. *)
Theorem Unmarshal_errors (a : AirGap) (data : slice) (e : string) :
  Unmarshal a data = Some (Err e) →
  decrypted a data = Err e
  ∨ e = "go-airgap message version less than supported"%string
  ∨ e = "go-airgap message version greater than supported"%string
  ∨ e = "go-airgap message has incorrect instance"%string.
Proof.
  unfold Unmarshal.
  destruct (decrypted a data) as [d|e'|]; [|intros [= <-]; by left|discriminate].
  destruct (byte_at d 0) as [v|]; [|discriminate].
  destruct (reslice d 1 airGapMessagesOffset) as [id|]; [|discriminate].
  destruct (decide _); [intros [= <-]; right; by left|].
  destruct (decide _); [intros [= <-]; right; right; by left|].
  destruct (negb _); [intros [= <-]; right; right; by right|].
  destruct (CreateMessage a) as [m|]; [|discriminate].
  intros Hrun. by apply unmarshal_loop_no_error in Hrun.
Qed.

(** X17.  A message [Unmarshal] returns carries the version, the
    instance id, the chunk size and the encryption capability of the
    context, and each of its operations has a 16-bit op code and a size
    field equal to the length of its data. *)
Theorem Unmarshal_message_is_well_formed (a : AirGap) (data : slice)
    (m : Message) :
  Unmarshal a data = Some (Ok m) →
  Version m = version a
  ∧ InstanceId m = instanceId a
  ∧ m_chunkSize m = chunkSize a
  ∧ m_e m = encryptor <$> ed a
  ∧ Forall (λ op, 0 ≤ OpCode op < 2 ^ 16
                  ∧ Size op = Z.of_nat (length (OpData op))
                  ∧ Size op < 2 ^ 32) (Payload m).
Proof.
  unfold Unmarshal.
  destruct (decrypted a data) as [d|e'|]; [|discriminate..].
  destruct (byte_at d 0) as [v|]; [|discriminate].
  destruct (reslice d 1 airGapMessagesOffset) as [id|]; [|discriminate].
  destruct (decide _); [discriminate|].
  destruct (decide _); [discriminate|].
  destruct (negb _); [discriminate|].
  unfold CreateMessage.
  destruct (instanceId a) as [id'|] eqn:Hid; [|discriminate].
  intros Hrun.
  apply unmarshal_loop_payload in Hrun as (-> & -> & -> & -> & new & -> & Hnew).
  cbn [Version InstanceId m_chunkSize m_e Payload app]. done.
Qed.


(** ** From [Unmarshal] back to [Marshal] *)

Lemma byte_of_Z_mod (z : Z) (b : byte) :
  z mod 256 = byte_to_Z b → byte_of_Z z = b.
Proof.
  intros Hz. rewrite <- (byte_of_to_Z b), <- Hz.
  unfold byte_of_Z. change (2 ^ 8) with 256.
  rewrite Z.mod_mod by lia. reflexivity.
Qed.

(** The header bytes of a record are those its fields were read from. *)
Lemma op_header_of_bytes (d0 d1 d2 d3 d4 d5 : byte) :
  op_header (Z.lor (byte_to_Z d1) (byte_to_Z d0 ≪ 8))
            (Z.lor (Z.lor (Z.lor (byte_to_Z d5) (byte_to_Z d4 ≪ 8))
                          (byte_to_Z d3 ≪ 16))
                   (byte_to_Z d2 ≪ 24))
  = [d0; d1; d2; d3; d4; d5].
Proof.
  pose proof (byte_to_Z_range d0). pose proof (byte_to_Z_range d1).
  pose proof (byte_to_Z_range d5). pose proof (byte_to_Z_range d4).
  pose proof (byte_to_Z_range d3). pose proof (byte_to_Z_range d2).
  rewrite (lor_shiftl_add _ _ 8) by (change (2 ^ 8) with 256; lia).
  rewrite (lor_shiftl_add (byte_to_Z d5) _ 8) by (change (2 ^ 8) with 256; lia).
  rewrite (lor_shiftl_add _ _ 16)
    by (change (2 ^ 8) with 256; change (2 ^ 16) with 65536; lia).
  rewrite (lor_shiftl_add _ _ 24)
    by (change (2 ^ 8) with 256; change (2 ^ 16) with 65536;
        change (2 ^ 24) with 16777216; lia).
  unfold op_header. rewrite !Z.shiftr_div_pow2 by lia.
  change (2 ^ 8) with 256. change (2 ^ 16) with 65536.
  change (2 ^ 24) with 16777216.
  repeat f_equal; apply byte_of_Z_mod; Z.div_mod_to_equations; lia.
Qed.

Lemma read_op_header_bytes (data : slice) (iter opCode size_ : Z) :
  0 ≤ iter →
  read_op_header data iter = Some (opCode, size_) →
  ∃ d0 d1 d2 d3 d4 d5 : byte,
    drop (Z.to_nat iter) (elems data)
    = d0 :: d1 :: d2 :: d3 :: d4 :: d5 :: drop (Z.to_nat (iter + 6)) (elems data)
    ∧ op_header opCode size_ = [d0; d1; d2; d3; d4; d5].
Proof.
  intros Hiter. unfold read_op_header. intros Hrd.
  destruct (byte_at data (iter + 1)) as [d1|] eqn:H1; [|discriminate].
  destruct (byte_at data iter) as [d0|] eqn:H0; [|discriminate].
  destruct (byte_at data (iter + 5)) as [d5|] eqn:H5; [|discriminate].
  destruct (byte_at data (iter + 4)) as [d4|] eqn:H4; [|discriminate].
  destruct (byte_at data (iter + 3)) as [d3|] eqn:H3; [|discriminate].
  destruct (byte_at data (iter + 2)) as [d2|] eqn:H2; [|discriminate].
  cbn in Hrd. injection Hrd as <- <-.
  exists d0, d1, d2, d3, d4, d5. split; [|apply op_header_of_bytes].
  unfold byte_at in *.
  rewrite decide_True in H0 by lia. rewrite decide_True in H1 by lia.
  rewrite decide_True in H2 by lia. rewrite decide_True in H3 by lia.
  rewrite decide_True in H4 by lia. rewrite decide_True in H5 by lia.
  replace (Z.to_nat (iter + 1)) with (S (Z.to_nat iter)) in H1 by lia.
  replace (Z.to_nat (iter + 2)) with (S (S (Z.to_nat iter))) in H2 by lia.
  replace (Z.to_nat (iter + 3)) with (S (S (S (Z.to_nat iter)))) in H3 by lia.
  replace (Z.to_nat (iter + 4)) with (S (S (S (S (Z.to_nat iter))))) in H4
    by lia.
  replace (Z.to_nat (iter + 5)) with (S (S (S (S (S (Z.to_nat iter)))))) in H5
    by lia.
  replace (Z.to_nat (iter + 6)) with (S (S (S (S (S (S (Z.to_nat iter)))))))
    by lia.
  rewrite (drop_S _ _ _ H0), (drop_S _ _ _ H1), (drop_S _ _ _ H2),
    (drop_S _ _ _ H3), (drop_S _ _ _ H4), (drop_S _ _ _ H5).
  reflexivity.
Qed.

(** The record [Marshal] builds for an operation whose size field is
    the length of its data and leaves room for the header. *)
Lemma marshal_payload_record (op : OpPayload) :
  Size op = Z.of_nat (length (OpData op)) →
  Size op ≤ 2 ^ 32 - 7 →
  marshal_payload op = Some (op_header (OpCode op) (Size op) ++ OpData op).
Proof.
  intros Hsize Hmax. unfold marshal_payload.
  unfold uint32, operationPayloadOffset. rewrite Z.mod_small by lia.
  unfold make.
  replace (Z.to_nat (6 + Size op)) with (6 + length (OpData op))%nat by lia.
  rewrite replicate_add. cbn [replicate app].
  repeat (rewrite store_Some by (simpl; lia); cbn [mbind option_bind]).
  cbn [insert list_insert firstn skipn app].
  unfold op_header. cbn [app]. do 7 f_equal.
  rewrite take_0, drop_0. cbn [app].
  unfold copy. rewrite length_replicate, firstn_all.
  rewrite drop_ge by (rewrite length_replicate; lia).
  apply app_nil_r.
Qed.

(** On a slice without spare capacity, the operations the loop appends
    marshal to the very bytes it read. *)
Lemma unmarshal_loop_marshal (bs : list byte) :
  Z.of_nat (length bs) < 2 ^ 32 →
  ∀ (fuel : nat) (iter : Z) (m m' : Message),
    0 ≤ iter →
    unmarshal_loop fuel (Slice bs []) iter m = Some (Ok m') →
    ∃ (new : list OpPayload) (recs : list (list byte)),
      Payload m' = Payload m ++ new
      ∧ mapM marshal_payload new = Some recs
      ∧ concat recs = drop (Z.to_nat iter) bs.
Proof.
  intros Hlen. induction fuel as [|fuel IH]; intros iter m m' Hiter;
    [discriminate|].
  cbn [unmarshal_loop]. unfold len. cbn [elems].
  destruct (decide (iter < Z.of_nat (length bs))) as [Hlt|Hge].
  - destruct (read_op_header (Slice bs []) iter) as [[opCode size_]|] eqn:Hrd;
      [|discriminate].
    destruct (reslice _ _ _) as [d|] eqn:Hd; [|discriminate].
    intros Hrun.
    pose proof (read_op_header_range _ _ _ _ Hrd) as [Hc Hs].
    destruct (read_op_header_bytes _ _ _ _ Hiter Hrd)
      as (d0 & d1 & d2 & d3 & d4 & d5 & Hdrop & Hhdr).
    cbn [elems] in Hdrop.
    pose proof (reslice_length _ _ _ _ Hd) as Hdlen.
    unfold reslice, cap, operationPayloadOffset in Hd, Hdlen.
    cbn [elems spare] in Hd.
    destruct (decide _) as [Hin|]; [|discriminate].
    rewrite app_nil_r in Hd. injection Hd as Hd.
    apply IH in Hrun as (new & recs & -> & Hrecs & Hcat);
      [|unfold operationPayloadOffset; lia].
    cbn [AddOperation Payload].
    exists ({| OpCode := opCode; Size := uint32 (Z.of_nat (length d));
               OpData := d |} :: new),
      ((op_header opCode size_ ++ d) :: recs).
    split; [rewrite <- app_assoc; reflexivity|]. split.
    + cbn [mapM].
      rewrite marshal_payload_record;
        cbn [OpCode Size OpData]; unfold uint32;
        rewrite ?Z.mod_small by lia; try lia.
      * cbn [mbind option_bind]. rewrite Hrecs. cbn.
        replace (Z.of_nat (length d)) with size_ by lia. reflexivity.
      * simpl in Hin. lia.
    + cbn [concat]. rewrite Hcat, Hdrop, Hhdr. cbn [app]. do 6 f_equal.
      unfold operationPayloadOffset. rewrite <- Hd.
      replace (Z.to_nat (iter + (6 + size_)))
        with (Z.to_nat (iter + 6) + Z.to_nat (iter + (6 + size_) - (iter + 6)))%nat
        by lia.
      rewrite <- drop_drop. apply take_drop.
  - intros [= <-]. exists [], []. split; [by rewrite app_nil_r|].
    split; [reflexivity|]. rewrite drop_ge by lia. reflexivity.
Qed.

(** X18.  Decode, then encode.  Without an encryption capability, on
    an input of fewer than [2^32] bytes in a slice without spare
    capacity: when [Unmarshal] returns a message, [Marshal] of that
    message returns the input, byte for byte. *)
Theorem Marshal_of_Unmarshal (a : AirGap) (bs : list byte) (m : Message) :
  ed a = None →
  Z.of_nat (length bs) < 2 ^ 32 →
  Unmarshal a (Slice bs []) = Some (Ok m) →
  Marshal m = Ok bs.
Proof.
  intros Hed Hlen. unfold Unmarshal, decrypted. rewrite Hed.
  destruct (byte_at (Slice bs []) 0) as [v|] eqn:Hv; [|discriminate].
  destruct (reslice (Slice bs []) 1 airGapMessagesOffset) as [id|] eqn:Hid;
    [|discriminate].
  destruct (decide _) as [|Hold]; [discriminate|].
  destruct (decide _) as [|Hnew]; [discriminate|].
  unfold bytes_Equal.
  destruct (bool_decide_reflect (default [] (instanceId a) = id)) as [Heq|];
    [|discriminate].
  cbn [negb]. unfold CreateMessage.
  destruct (instanceId a) as [id'|] eqn:Hinst; [|discriminate].
  simpl in Heq. subst id'.
  intros Hrun.
  pose proof (unmarshal_loop_payload _ _ _ _ _ Hrun)
    as (Hver & Hins & _ & He & _).
  apply unmarshal_loop_marshal in Hrun as (new & recs & Hpay & Hrecs & Hcat);
    [|exact Hlen|unfold airGapMessagesOffset, compressedPubKeySize; lia].
  cbn [Version InstanceId m_e Payload app] in *.
  unfold Marshal. rewrite Hver, Hins, He, Hpay, Hrecs, Hed, Hcat.
  cbn [fmap option_fmap option_map default app]. f_equal.
  unfold byte_at in Hv. cbn [elems] in Hv. rewrite decide_True in Hv by lia.
  change (Z.to_nat 0) with 0%nat in Hv.
  unfold reslice, cap, airGapMessagesOffset, compressedPubKeySize in Hid.
  cbn [elems spare] in Hid.
  destruct (decide _) as [Hin|]; [|discriminate].
  rewrite app_nil_r in Hid. injection Hid as <-.
  assert (byte_to_Z v = version a) as <- by lia.
  rewrite byte_of_to_Z.
  destruct bs as [|b bs]; [discriminate|]. injection Hv as ->.
  unfold airGapMessagesOffset, compressedPubKeySize.
  change (Z.to_nat 1) with 1%nat.
  change (Z.to_nat (1 + 33 - 1)) with 33%nat.
  change (Z.to_nat (1 + 33)) with 34%nat.
  change (drop 34 (v :: bs)) with (drop 33 bs).
  change (drop 1 (v :: bs)) with bs.
  change (id (take 33 bs)) with (take 33 bs).
  rewrite take_drop. reflexivity.
Qed.

(** X18, witness: the envelope of the three operations of the
    example. *)
Lemma Marshal_of_Unmarshal_witness :
  ∃ m : Message,
    Unmarshal example_airgap (Slice (envelope example_airgap example_ops) [])
    = Some (Ok m)
    ∧ Marshal m = Ok (envelope example_airgap example_ops).
Proof.
  eexists. split; [reflexivity|].
  apply (Marshal_of_Unmarshal example_airgap
           (envelope example_airgap example_ops)).
  - reflexivity.
  - vm_compute. reflexivity.
  - reflexivity.
Defined.

(** X16, witness: an envelope of the wrong version. *)
Lemma Unmarshal_errors_witness :
  decrypted example_airgap (Slice (x00 :: example_id) [])
  = Err "go-airgap message version less than supported"
  ∨ "go-airgap message version less than supported"%string
    = "go-airgap message version less than supported"%string
  ∨ "go-airgap message version less than supported"%string
    = "go-airgap message version greater than supported"%string
  ∨ "go-airgap message version less than supported"%string
    = "go-airgap message has incorrect instance"%string.
Proof.
  apply (Unmarshal_errors example_airgap (Slice (x00 :: example_id) [])).
  reflexivity.
Defined.

(** X17, witness: an envelope whose single record takes its last byte
    from the spare capacity. *)
Lemma Unmarshal_message_is_well_formed_witness :
  ∃ m : Message,
    Unmarshal example_airgap
      (Slice (envelope example_airgap [] ++ op_header 2 2 ++ [x62]) [x07])
    = Some (Ok m)
    ∧ Version m = 1
    ∧ InstanceId m = Some example_id
    ∧ m_chunkSize m = 192
    ∧ m_e m = None
    ∧ Forall (λ op, 0 ≤ OpCode op < 2 ^ 16
                    ∧ Size op = Z.of_nat (length (OpData op))
                    ∧ Size op < 2 ^ 32) (Payload m).
Proof.
  eexists. split; [reflexivity|].
  apply (Unmarshal_message_is_well_formed example_airgap
           (Slice (envelope example_airgap [] ++ op_header 2 2 ++ [x62])
                  [x07])).
  reflexivity.
Defined.


(** ** From operations to frames and back *)

Section pipeline.
Context `{!Gzip, !Base64}.



(** X20.  [MarshalB64Chunks] returns the error of [Marshal], which is
    that of [Encrypt], unchanged, and panics when [Marshal] does; the
    chunk size of the message is checked only after that, and a size
    below 6 or above 65530 is returned as the error of the splitter. *)
Theorem MarshalB64Chunks_errors (fuel : nat) (m : Message) :
  (∀ e : string, Marshal m = Err e → MarshalB64Chunks fuel m = Some (Err e))
  ∧ (Marshal m = Panic → MarshalB64Chunks fuel m = Some Panic)
  ∧ (∀ out : list byte,
       Marshal m = Ok out →
       (m_chunkSize m < 6 →
          MarshalB64Chunks fuel m = Some (Err "min chunk size 32"))
       ∧ (65530 < m_chunkSize m →
          MarshalB64Chunks fuel m = Some (Err "max chunk size 65531"))).
Proof.
  unfold MarshalB64Chunks. split; [|split].
  - intros e ->. reflexivity.
  - intros ->. reflexivity.
  - intros out ->.
    change (NewChunks_src fuel out (m_chunkSize m))
      with (SetData fuel out (m_chunkSize m)).
    split; intros Hc.
    + rewrite SetData_guard_min by exact Hc. reflexivity.
    + rewrite SetData_guard_max by exact Hc. reflexivity.
Qed.

End pipeline.

(** X21.  [NewAirGap] returns a context exactly for an instance id of
    33 bytes and panics otherwise.  On the context it returns, after
    any calls of [SetEncryptorDecryptor], [SetVersion] and
    [SetChunkSize], [CreateMessage] does not panic, and the message it
    returns has no operation and carries the instance id and the values
    set last. *)
Theorem NewAirGap_then_CreateMessage (v : Z) (id : option (list byte)) :
  (is_Some (NewAirGap v id)
   ↔ ∃ id' : list byte, id = Some id' ∧ length id' = 33%nat)
  ∧ ∀ a : AirGap,
      NewAirGap v id = Some a →
      CreateMessage a
      = Some {| Version := v; InstanceId := id; Payload := [];
                m_chunkSize := 192; m_e := None |}
      ∧ ∀ (e : option EncryptorDecryptor) (v' c : Z),
          CreateMessage
            (SetChunkSize (SetVersion (SetEncryptorDecryptor a e) v') c)
          = Some {| Version := v'; InstanceId := id; Payload := [];
                    m_chunkSize := c; m_e := encryptor <$> e |}.
Proof.
  split.
  - split.
    + intros [a Ha]. apply NewAirGap_spec in Ha as (id' & -> & Hlen & _).
      by exists id'.
    + intros (id' & -> & Hlen). unfold NewAirGap, compressedPubKeySize.
      rewrite decide_False by lia. by eexists.
  - intros a Ha. apply NewAirGap_spec in Ha as (id' & -> & Hlen & ->).
    split; [reflexivity|]. intros e v' c. reflexivity.
Qed.


(** X20, witness: a message whose chunk size was set to 5. *)
Lemma MarshalB64Chunks_errors_witness :
  @MarshalB64Chunks StoredGzip StdEncoding 100
    {| Version := 1; InstanceId := Some example_id; Payload := [];
       m_chunkSize := 5; m_e := None |}
  = Some (Err "min chunk size 32").
Proof.
  eapply (proj2 (proj2 (@MarshalB64Chunks_errors StoredGzip StdEncoding 100
                          {| Version := 1; InstanceId := Some example_id;
                             Payload := []; m_chunkSize := 5;
                             m_e := None |}))).
  - reflexivity.
  - simpl. lia.
Defined.

(** X21, witness: the context of the examples, then encryption,
    version 2 and chunk size 64. *)
Lemma NewAirGap_then_CreateMessage_witness :
  CreateMessage example_airgap
  = Some {| Version := 1; InstanceId := Some example_id; Payload := [];
            m_chunkSize := 192; m_e := None |}
  ∧ CreateMessage
      (SetChunkSize
         (SetVersion
            (SetEncryptorDecryptor example_airgap (Some (XorCipher x5a))) 2)
         64)
    = Some {| Version := 2; InstanceId := Some example_id; Payload := [];
              m_chunkSize := 64;
              m_e := Some (encryptor (XorCipher x5a)) |}.
Proof.
  destruct (proj2 (NewAirGap_then_CreateMessage 1 (Some example_id))
              example_airgap eq_refl) as [Hdefault Hset].
  split; [exact Hdefault|]. apply (Hset (Some (XorCipher x5a)) 2 64).
Defined.
